(** * chatto25: session and routing core of [server.js]

    A shallow embedding of the socket.io chat server: the three process-wide
    variables [users], [groups] and [chatHistory], the helpers
    [nicknameToSocketId] and [filterHistoryForNickname], the [/reset] endpoint
    and the socket event handlers.  Every handler is a function from the
    state (and the event payload) to an [Outcome]: the state it leaves and
    the emissions it performed, in program order. *)

From Stdlib Require Import String Ascii List Bool ZArith NArith Lia.
Import ListNotations.
Open Scope string_scope.
Open Scope list_scope.

Set Implicit Arguments.

(** ** JavaScript values and objects *)

Module Js.

(** Truthiness of a string: only the empty string is falsy. *)
Definition truthy (s : string) : bool := negb (s =? "").

(** The operand [o] of [... && o] or [o || ...] when it is truthy:
    [undefined] and the empty string are falsy. *)
Definition truthy_value (o : option string) : option string :=
  match o with
  | Some s => if truthy s then Some s else None
  | None => None
  end.

(** [Array.prototype.includes] on an array of strings. *)
Definition includes (x : string) (l : list string) : bool :=
  existsb (String.eqb x) l.

Section Object.
Variable V : Type.

(** A plain object [{}] whose own properties are listed in the order in
    which they were created. *)
Definition Obj := list (string * V).

(** The own property [k], if any. *)
Fixpoint own (k : string) (o : Obj) : option V :=
  match o with
  | [] => None
  | (k', v) :: r => if k =? k' then Some v else own k r
  end.

(** [o[k] = v]: an existing property keeps its place, a new one goes last. *)
Fixpoint set (k : string) (v : V) (o : Obj) : Obj :=
  match o with
  | [] => [(k, v)]
  | (k', v') :: r =>
      if k =? k' then (k, v) :: r else (k', v') :: set k v r
  end.

(** [delete o[k]]. *)
Fixpoint delete (k : string) (o : Obj) : Obj :=
  match o with
  | [] => []
  | (k', v') :: r =>
      if k =? k' then delete k r else (k', v') :: delete k r
  end.
End Object.

(** The property names every plain object inherits from
    [Object.prototype].  Reading one of them on an object that has no own
    property of that name yields a function (or, for [__proto__], the
    prototype object): a truthy value that is not an array. *)
Definition prototype_keys : list string :=
  [ "constructor"; "__defineGetter__"; "__defineSetter__"; "hasOwnProperty";
    "__lookupGetter__"; "__lookupSetter__"; "isPrototypeOf";
    "propertyIsEnumerable"; "toString"; "valueOf"; "__proto__";
    "toLocaleString" ].

Definition inherited (k : string) : bool := includes k prototype_keys.

(** *** Enumeration order of own keys

    [Object.keys] lists the keys that are array indices (canonical decimal
    numerals up to 2^32 - 2) first, in ascending numeric order, and then
    the other keys in creation order. *)

Definition digit (c : ascii) : option N :=
  let n := N_of_ascii c in
  if ((48 <=? n) && (n <=? 57))%N then Some (n - 48)%N else None.

Fixpoint decimal (s : string) (acc : N) : option N :=
  match s with
  | EmptyString => Some acc
  | String c r =>
      match digit c with
      | Some d => decimal r (acc * 10 + d)%N
      | None => None
      end
  end.

Definition array_index (s : string) : option N :=
  match s with
  | EmptyString => None
  | String c r =>
      if (c =? "0")%char then
        match r with EmptyString => Some 0%N | _ => None end
      else
        match decimal s 0 with
        | Some n => if (n <=? 4294967294)%N then Some n else None
        | None => None
        end
  end.

Fixpoint insert_index (e : N * string) (l : list (N * string))
  : list (N * string) :=
  match l with
  | [] => [e]
  | e' :: r =>
      if (fst e <=? fst e')%N then e :: l else e' :: insert_index e r
  end.

Definition sort_index (l : list (N * string)) : list (N * string) :=
  fold_right insert_index [] l.

Definition index_keys (ks : list string) : list (N * string) :=
  flat_map (fun k => match array_index k with
                     | Some n => [(n, k)]
                     | None => []
                     end) ks.

Definition is_index (k : string) : bool :=
  match array_index k with Some _ => true | None => false end.

Definition keys_in_order (ks : list string) : list string :=
  map snd (sort_index (index_keys ks))
    ++ filter (fun k => negb (is_index k)) ks.

Section Enumeration.
Variable V : Type.

(** [Object.keys(o)], [Object.entries(o)] and [Object.values(o)]. *)
Definition keys (o : Obj V) : list string := keys_in_order (map fst o).

Definition entries (o : Obj V) : list (string * V) :=
  flat_map (fun k => match own k o with
                     | Some v => [(k, v)]
                     | None => []
                     end) (keys o).

Definition values (o : Obj V) : list V := map snd (entries o).
End Enumeration.

End Js.

(** ** Data model

    Payloads have the shapes the server expects of its clients: a nickname,
    a target, a group name and the elements of a member array are strings;
    the fields [type], [text] and [data] of a chat payload and the [target]
    of a typing payload may be absent.  An event that comes without its
    payload is the input [NoPayload]; a nickname and a private target that
    are [null] are followed in the module [Nullable]. *)

(** [socket.id]: the token socket.io gives a connection.  The server reads
    [users[socket.id]] as an own property: the transport generates the ids,
    and none is the name of a property inherited from [Object.prototype]. *)
Definition SocketId := string.

(** The [image] field of a message: [null], or [msg.data] (which is
    [undefined] when the payload carries no [data]). *)
Inductive Image :=
| ImageNull
| ImageData (data : option string).

(** A record of [chatHistory]. *)
Record Message := mkMessage {
  id : SocketId;
  name : string;
  text : string;
  image : Image;
  time : Z;
  type : string;
  target : option string
}.

(** The server state: [users] (socketId -> nickname), [groups]
    (groupName -> array of nicknames) and [chatHistory]. *)
Record State := mkState {
  users : Js.Obj string;
  groups : Js.Obj (list string);
  chatHistory : list Message
}.

(** The object payload of the chat events: [{type?, text?, data?}]. *)
Module Payload.
Record t := mk {
  type : option string;
  text : option string;
  data : option string
}.
End Payload.

(** The payload of [chat public]: a string or an object. *)
Inductive PublicPayload :=
| PubString (s : string)
| PubObject (o : Payload.t).

(** The texts of the [system message] events, one constructor per message
    of the source. *)
Inductive Notice :=
| TargetNotConnected (targetNickname : string)
    (* Usuario <targetNickname> no esta conectado. *)
| GroupNotFound (groupName : string)
    (* El grupo <groupName> no existe. *)
| NotAGroupMember (groupName : string)
    (* No tienes permiso para enviar mensajes a <groupName>. *)
| InvalidRequest
    (* Nombre de grupo invalido o sin miembros. *)
| DuplicateGroup (groupName : string)
    (* El grupo <groupName> ya existe. *)
| NoValidMembers
    (* Ninguno de los miembros esta conectado. *)
| GroupCreated (groupName : string) (members : nat).
    (* Grupo <groupName> creado con <n> miembro(s). *)

(** Outbound events, by event name. *)
Inductive Event :=
| UserList (nicknames : list string)
| GroupList (groupNames : list string)
| ChatHistory (messages : list Message)
| ChatMessage (message : Message)
| SystemMessage (notice : Notice)
| Typing (name : option string) (type : string) (target : option string).

(** The four ways the server emits. *)
Inductive Emission :=
| IoEmit (e : Event)                       (* io.emit(...) *)
| SocketEmit (sid : SocketId) (e : Event)  (* socket.emit(...) on socket sid *)
| IoTo (sid : SocketId) (e : Event)        (* io.to(sid).emit(...) *)
| BroadcastEmit (sid : SocketId) (e : Event).
                                           (* socket.broadcast.emit(...) *)

(** What a handler did: it ran to its end, or a [TypeError] was thrown
    after the state changes and emissions recorded. *)
Inductive Outcome :=
| Done (st : State) (out : list Emission)
| Threw (st : State) (out : list Emission).

(** The events a connection [conn] is sent by a list of emissions:
    [io.emit] reaches every connection, [socket.emit] and [io.to(sid)] the
    socket named, [socket.broadcast.emit] every connection but the socket
    named. *)
Definition addressed (conn : SocketId) (em : Emission) : option Event :=
  match em with
  | IoEmit e => Some e
  | SocketEmit sid e => if conn =? sid then Some e else None
  | IoTo sid e => if conn =? sid then Some e else None
  | BroadcastEmit sid e => if conn =? sid then None else Some e
  end.

Definition received (conn : SocketId) (out : list Emission) : list Event :=
  flat_map (fun em => match addressed conn em with
                      | Some e => [e]
                      | None => []
                      end) out.

(** ** Utilities *)

(** What [groups[g]] evaluates to. *)
Inductive GroupLookup :=
| Members (members : list string)   (* an own property: the member array *)
| Inherited                         (* a member of Object.prototype *)
| Undefined.

Definition groups_get (groups : Js.Obj (list string)) (g : string)
  : GroupLookup :=
  match Js.own g groups with
  | Some members => Members members
  | None => if Js.inherited g then Inherited else Undefined
  end.

Definition nicknameToSocketId (users : Js.Obj string) (nickname : string)
  : option SocketId :=
  match find (fun e => snd e =? nickname) (Js.entries users) with
  | Some (sid, _) => if Js.truthy sid then Some sid else None
  | None => None
  end.

(** The property key [msg.target] is converted to when it indexes [groups]. *)
Definition property_key (target : option string) : string :=
  match target with
  | Some s => s
  | None => "null"
  end.

(** The callback of the [filter] in [filterHistoryForNickname]; [None] when
    [members.includes] is not a function. *)
Definition visible (groups : Js.Obj (list string)) (nickname : string)
  (msg : Message) : option bool :=
  if type msg =? "public" then Some true
  else if type msg =? "private" then
    Some ((name msg =? nickname)
          || match target msg with
             | Some t => t =? nickname
             | None => false
             end)
  else if type msg =? "group" then
    match groups_get groups (property_key (target msg)) with
    | Members members => Some (Js.includes nickname members)
    | Undefined => Some (Js.includes nickname [])
    | Inherited => None
    end
  else Some false.

(** [Array.prototype.filter] with a callback that may throw. *)
Fixpoint filter_throwing (A : Type) (f : A -> option bool) (l : list A)
  : option (list A) :=
  match l with
  | [] => Some []
  | a :: r =>
      match f a with
      | None => None
      | Some b =>
          match filter_throwing f r with
          | None => None
          | Some r' => Some (if b then a :: r' else r')
          end
      end
  end.

Definition filterHistoryForNickname (st : State) (nickname : string)
  : option (list Message) :=
  filter_throwing (visible (groups st) nickname) (chatHistory st).

(** [Object.keys(groups).filter(g => (groups[g] || []).includes(nick))]:
    every [g] is an own key, so [groups[g]] is its member array. *)
Definition myGroups (groups : Js.Obj (list string)) (nick : string)
  : list string :=
  filter (fun g => Js.includes nick
                     match Js.own g groups with
                     | Some members => members
                     | None => []
                     end)
         (Js.keys groups).

(** ** The [/reset] endpoint and the socket handlers *)

(** [chatHistory.push(message)]. *)
Definition push (st : State) (message : Message) : State :=
  mkState (users st) (groups st) (chatHistory st ++ [message]).

(** [l.forEach(body)] for a body that only emits and may throw: the
    emissions made, and whether the loop was left by a throw. *)
Fixpoint forEach (A : Type) (body : A -> option (list Emission)) (l : list A)
  : list Emission * bool :=
  match l with
  | [] => ([], false)
  | a :: r =>
      match body a with
      | None => ([], true)
      | Some out => let (out', threw) := forEach body r in (out ++ out', threw)
      end
  end.

(** [app.post("/reset", ...)].  The loop
    [Object.keys(users).forEach(sid => ... users[sid] ...)] visits the
    entries of [users]. *)
Definition reset (st : State) : Outcome :=
  let st1 := mkState (users st) [] [] in
  let out1 := [IoEmit (UserList (Js.values (users st1)))] in
  let (out2, threw) :=
    forEach (fun '(sid, nick) =>
               match filterHistoryForNickname st1 nick with
               | Some history =>
                   Some [IoTo sid (GroupList []); IoTo sid (ChatHistory history)]
               | None => None
               end)
            (Js.entries (users st1)) in
  if threw then Threw st1 (out1 ++ out2) else Done st1 (out1 ++ out2).

(** [socket.on("set nickname", ...)] on the socket [sid]. *)
Definition set_nickname (st : State) (sid : SocketId) (nickname : string)
  : Outcome :=
  let st1 := mkState (Js.set sid nickname (users st)) (groups st)
                     (chatHistory st) in
  let out1 := [IoEmit (UserList (Js.values (users st1)))] in
  match filterHistoryForNickname st1 nickname with
  | None => Threw st1 out1
  | Some history =>
      Done st1 (out1 ++ [SocketEmit sid (ChatHistory history);
                         SocketEmit sid (GroupList (myGroups (groups st1) nickname))])
  end.

(** [users[socket.id] || "Desconocido"]. *)
Definition sender_name (st : State) (sid : SocketId) : string :=
  match Js.truthy_value (Js.own sid (users st)) with
  | Some nick => nick
  | None => "Desconocido"
  end.

(** [msg.type === "image"]. *)
Definition isImage (msg : Payload.t) : bool :=
  match Payload.type msg with
  | Some t => t =? "image"
  | None => false
  end.

(** [isImage ? "" : (msg.text || "")]. *)
Definition message_text (msg : Payload.t) : string :=
  if isImage msg then ""
  else match Payload.text msg with
       | Some t => t
       | None => ""
       end.

(** [isImage ? msg.data : null]. *)
Definition message_image (msg : Payload.t) : Image :=
  if isImage msg then ImageData (Payload.data msg) else ImageNull.

(** [socket.on("chat public", ...)]; [now] is the value of [Date.now()]. *)
Definition chat_public (st : State) (sid : SocketId) (msg : PublicPayload)
  (now : Z) : Outcome :=
  let message :=
    match msg with
    | PubString s =>
        mkMessage sid (sender_name st sid) s ImageNull now "public" None
    | PubObject o =>
        mkMessage sid (sender_name st sid) (message_text o) (message_image o)
                  now "public" None
    end in
  Done (push st message) [IoEmit (ChatMessage message)].

(** [socket.on("chat private", ...)] with [msg.target = targetNickname]. *)
Definition chat_private (st : State) (sid : SocketId)
  (targetNickname : string) (msg : Payload.t) (now : Z) : Outcome :=
  match nicknameToSocketId (users st) targetNickname with
  | None =>
      Done st [SocketEmit sid (SystemMessage (TargetNotConnected targetNickname))]
  | Some targetId =>
      let message :=
        mkMessage sid (sender_name st sid) (message_text msg)
                  (message_image msg) now "private" (Some targetNickname) in
      Done (push st message)
           [SocketEmit sid (ChatMessage message);
            IoTo targetId (ChatMessage message)]
  end.

(** The loop over the members of a group that sends [e] to the socket each
    nickname resolves to; [skip] is the socket left out, if any. *)
Definition to_members (users : Js.Obj string) (skip : option SocketId)
  (e : Event) (members : list string) : list Emission :=
  flat_map (fun memberNick =>
              match nicknameToSocketId users memberNick with
              | Some sid =>
                  match skip with
                  | Some s => if sid =? s then [] else [IoTo sid e]
                  | None => [IoTo sid e]
                  end
              | None => []
              end) members.

(** [socket.on("chat group", ...)] with [msg.groupName = groupName]. *)
Definition chat_group (st : State) (sid : SocketId) (groupName : string)
  (msg : Payload.t) (now : Z) : Outcome :=
  let not_found :=
    Done st [SocketEmit sid (SystemMessage (GroupNotFound groupName))] in
  let no_permission :=
    Done st [SocketEmit sid (SystemMessage (NotAGroupMember groupName))] in
  (* [!senderNick || ...]: the right operand is evaluated for a truthy
     [senderNick] only *)
  let with_sender (rest : string -> Outcome) :=
    match Js.truthy_value (Js.own sid (users st)) with
    | Some senderNick => rest senderNick
    | None => no_permission
    end in
  if negb (Js.truthy groupName) then not_found
  else
    match groups_get (groups st) groupName with
    | Undefined => not_found
    | Members members =>
        with_sender (fun senderNick =>
          if negb (Js.includes senderNick members) then no_permission
          else
            let message :=
              mkMessage sid senderNick (message_text msg) (message_image msg)
                        now "group" (Some groupName) in
            Done (push st message)
                 (to_members (users st) None (ChatMessage message) members))
    | Inherited =>
        (* groups[groupName].includes is not a function *)
        with_sender (fun _ => Threw st [])
    end.

(** The array [validMembers] of the [create group] handler: the proposed
    members that are nicknames of [users], then the creator's nickname when
    it is truthy and not yet included. *)
Definition validMembers (st : State) (sid : SocketId) (members : list string)
  : list string :=
  let connectedNicknames := Js.values (users st) in
  let filtered := filter (fun n => Js.includes n connectedNicknames) members in
  match Js.truthy_value (Js.own sid (users st)) with
  | Some creatorNick =>
      if negb (Js.includes creatorNick filtered)
      then filtered ++ [creatorNick] else filtered
  | None => filtered
  end.

(** [socket.on("create group", ...)] with payload [{groupName, members}]. *)
Definition create_group (st : State) (sid : SocketId) (groupName : string)
  (members : list string) : Outcome :=
  if negb (Js.truthy groupName) || (length members =? 0)%nat then
    Done st [SocketEmit sid (SystemMessage InvalidRequest)]
  else
    match groups_get (groups st) groupName with
    | Members _ | Inherited =>
        Done st [SocketEmit sid (SystemMessage (DuplicateGroup groupName))]
    | Undefined =>
        let validMembers := validMembers st sid members in
        if (length validMembers =? 0)%nat then
          Done st [SocketEmit sid (SystemMessage NoValidMembers)]
        else
          let groups' := Js.set groupName validMembers (groups st) in
          Done (mkState (users st) groups' (chatHistory st))
               (flat_map (fun nick =>
                            match nicknameToSocketId (users st) nick with
                            | Some s => [IoTo s (GroupList (myGroups groups' nick))]
                            | None => []
                            end) validMembers
                ++ [SocketEmit sid
                      (SystemMessage
                         (GroupCreated groupName (length validMembers)))])
    end.

(** [socket.on("typing", ...)] with payload [{type, target}]; [target] is
    [None] when the payload has none. *)
Definition typing (st : State) (sid : SocketId) (type : string)
  (target : option string) : Outcome :=
  let senderNick := Js.own sid (users st) in
  if type =? "public" then
    Done st [BroadcastEmit sid (Typing senderNick type None)]
  else
    match (if type =? "private" then Js.truthy_value target else None) with
    | Some t =>
        match nicknameToSocketId (users st) t with
        | Some targetId =>
            Done st [IoTo targetId (Typing senderNick type (Some t))]
        | None => Done st []
        end
    | None =>
        match (if type =? "group" then Js.truthy_value target else None) with
        | Some t =>
            match groups_get (groups st) t with
            | Undefined => Done st []
            | Members members =>
                Done st (to_members (users st) (Some sid)
                                    (Typing senderNick type (Some t)) members)
            | Inherited =>
                (* groups[target].forEach is not a function *)
                Threw st []
            end
        | None => Done st []
        end
    end.

(** [socket.on("disconnect", ...)]; the loop visits the entries of [users]
    as in [reset]. *)
Definition disconnect (st : State) (sid : SocketId) : Outcome :=
  let st1 := mkState (Js.delete sid (users st)) (groups st) (chatHistory st) in
  Done st1
       (IoEmit (UserList (Js.values (users st1)))
        :: map (fun '(s, myNick) =>
                  IoTo s (GroupList (myGroups (groups st1) myNick)))
               (Js.entries (users st1))).

(** ** The server as a transition system *)

(** The events whose handler reads its payload. *)
Inductive PayloadEvent :=
| OnChatPublic
| OnChatPrivate
| OnChatGroup
| OnCreateGroup
| OnTyping.

(** One of those events with no payload, or with the payload [null].  No
    handler tests its payload before reading it: [chat public] evaluates
    [msg.type] (for [null]) or [msg.text] (for [undefined]) while it builds
    the record, [chat private] evaluates [msg.target], [chat group]
    evaluates [msg.groupName], and [create group] and [typing] destructure
    their parameter.  Each is a [TypeError], thrown before the handler has
    changed or emitted anything. *)
Definition no_payload (st : State) (event : PayloadEvent) : Outcome :=
  Threw st [].

(** What the server reacts to: the socket events of a connection, with the
    payload of the expected shape or with none, and the HTTP request
    [POST /reset]. *)
Inductive Input :=
| SetNickname (sid : SocketId) (nickname : string)
| ChatPublic (sid : SocketId) (msg : PublicPayload) (now : Z)
| ChatPrivate (sid : SocketId) (target : string) (msg : Payload.t) (now : Z)
| ChatGroup (sid : SocketId) (groupName : string) (msg : Payload.t) (now : Z)
| CreateGroup (sid : SocketId) (groupName : string) (members : list string)
| TypingEvent (sid : SocketId) (type : string) (target : option string)
| Disconnect (sid : SocketId)
| Reset
| NoPayload (sid : SocketId) (event : PayloadEvent).

Definition handle (st : State) (i : Input) : Outcome :=
  match i with
  | SetNickname sid nickname => set_nickname st sid nickname
  | ChatPublic sid msg now => chat_public st sid msg now
  | ChatPrivate sid target msg now => chat_private st sid target msg now
  | ChatGroup sid groupName msg now => chat_group st sid groupName msg now
  | CreateGroup sid groupName members => create_group st sid groupName members
  | TypingEvent sid type target => typing st sid type target
  | Disconnect sid => disconnect st sid
  | Reset => reset st
  | NoPayload sid event => no_payload st event
  end.

(** The state at start-up when no history file exists. *)
Definition initial : State := mkState [] [] [].

(** The states the server goes through on inputs of the shapes of
    [Input]: it starts with empty maps and an empty history, handles inputs
    one at a time, and, when the process is started again (after a throw,
    for one), comes back with empty maps and the history it had saved. *)
Inductive reachable : State -> Prop :=
| reachable_initial : reachable initial
| reachable_handle st i st' out :
    reachable st -> handle st i = Done st' out -> reachable st'
| reachable_restart st :
    reachable st -> reachable (mkState [] [] (chatHistory st)).

(** Run a list of inputs, stopping at a throw. *)
Fixpoint run (st : State) (inputs : list Input) : option State :=
  match inputs with
  | [] => Some st
  | i :: r =>
      match handle st i with
      | Done st' _ => run st' r
      | Threw _ _ => None
      end
  end.

(** ** Invariants of the stored data *)

(** The callback throws on a message, whoever the viewer is, exactly when
    the message has type [group] and its target names a property that
    [groups] only inherits. *)
Definition throws (groups : Js.Obj (list string)) (msg : Message) : bool :=
  (type msg =? "group")
  && match groups_get groups (property_key (target msg)) with
     | Inherited => true
     | _ => false
     end.

(** The history can be filtered: the callback throws on none of its
    records. *)
Definition filterable (st : State) : bool :=
  forallb (fun msg => negb (throws (groups st) msg)) (chatHistory st).

(** The state a handler leaves, whether it ended or threw, and what it
    emitted. *)
Definition state_of (o : Outcome) : State :=
  match o with
  | Done st _ => st
  | Threw st _ => st
  end.

Definition emissions (o : Outcome) : list Emission :=
  match o with
  | Done _ out => out
  | Threw _ out => out
  end.

(** The kind of a record is one of the three the handlers write. *)
Definition kind_closed (msg : Message) : Prop :=
  type msg = "public" \/ type msg = "private" \/ type msg = "group".

(** A record of the history is well formed: its kind is in the closed set,
    and its target is non-null exactly for the private and group kinds. *)
Definition well_formed (msg : Message) : Prop :=
  kind_closed msg /\
  (target msg <> None <-> type msg = "private" \/ type msg = "group").

(** Group names are truthy and none is a name [groups] would inherit. *)
Definition groups_named (st : State) : Prop :=
  forall g, In g (map fst (groups st)) -> g <> "" /\ Js.inherited g = false.

(** Every group record of the history targets a name that is not inherited. *)
Definition group_targets (st : State) : Prop :=
  forall msg, In msg (chatHistory st) -> type msg = "group" ->
    exists g, target msg = Some g /\ Js.inherited g = false.

Definition invariant (st : State) : Prop :=
  groups_named st /\ Forall well_formed (chatHistory st) /\ group_targets st.

(** ** Who holds a nickname *)

(** [conn] is the first connection, in the enumeration order of [users],
    whose nickname is [nick]. *)
Definition first_holder (us : Js.Obj string) (nick : string)
  (conn : SocketId) : Prop :=
  exists before after,
    Js.entries us = before ++ (conn, nick) :: after /\
    forall e, In e before -> snd e <> nick.

(** No nickname is held by two connections. *)
Definition one_holder_each (us : Js.Obj string) : Prop :=
  forall s1 s2 nick,
    Js.own s1 us = Some nick -> Js.own s2 us = Some nick -> s1 = s2.

(** No socket id is the empty string. *)
Definition ids_not_empty (us : Js.Obj string) : Prop :=
  forall sid, Js.own sid us <> None -> sid <> "".

(** ** Nicknames and targets that are not strings

    The handlers do not test the type of what a client sends.  This module
    follows [set nickname] (the assignment [users[socket.id] = nickname]),
    [nicknameToSocketId] and [chat private] for a nickname and a target that
    are a string or [null], as far as [users] and [chatHistory] go; what the
    handlers emit does not enter the state and is left out here. *)
Module Nullable.

(** A string, or [None] for [null]. *)
Definition Nick := option string.

(** [a === b]. *)
Definition strict_equal (a b : Nick) : bool :=
  match a, b with
  | None, None => true
  | Some x, Some y => x =? y
  | _, _ => false
  end.

(** [users[socket.id] = nickname]. *)
Definition set_nickname (users : Js.Obj Nick) (sid : SocketId)
  (nickname : Nick) : Js.Obj Nick :=
  Js.set sid nickname users.

Definition nicknameToSocketId (users : Js.Obj Nick) (nickname : Nick)
  : option SocketId :=
  match find (fun e => strict_equal (snd e) nickname) (Js.entries users) with
  | Some (sid, _) => if Js.truthy sid then Some sid else None
  | None => None
  end.

(** [users[socket.id] || "Desconocido"]: [undefined], [null] and the empty
    string are falsy. *)
Definition sender_name (users : Js.Obj Nick) (sid : SocketId) : string :=
  match Js.own sid users with
  | Some (Some nick) => if Js.truthy nick then nick else "Desconocido"
  | _ => "Desconocido"
  end.

(** The history [chat private] leaves, with [msg.target = target]. *)
Definition chat_private (users : Js.Obj Nick) (chatHistory : list Message)
  (sid : SocketId) (target : Nick) (msg : Payload.t) (now : Z)
  : list Message :=
  match nicknameToSocketId users target with
  | None => chatHistory
  | Some _ =>
      chatHistory
        ++ [mkMessage sid (sender_name users sid) (message_text msg)
                      (message_image msg) now "private" target]
  end.

End Nullable.

(** ** Reading inputs and emissions *)

(** The connection an input comes from; the reset is an HTTP request and
    comes from none. *)
Definition sender_of (i : Input) : option SocketId :=
  match i with
  | SetNickname sid _ => Some sid
  | ChatPublic sid _ _ => Some sid
  | ChatPrivate sid _ _ _ => Some sid
  | ChatGroup sid _ _ _ => Some sid
  | CreateGroup sid _ _ => Some sid
  | TypingEvent sid _ _ => Some sid
  | Disconnect sid => Some sid
  | Reset => None
  | NoPayload sid _ => Some sid
  end.

(** The event an emission carries. *)
Definition event_of (em : Emission) : Event :=
  match em with
  | IoEmit e => e
  | SocketEmit _ e => e
  | IoTo _ e => e
  | BroadcastEmit _ e => e
  end.

(** The socket a member's nickname resolves to is [conn]. *)
Definition resolves_to (us : Js.Obj string) (conn : SocketId)
  (nick : string) : bool :=
  match nicknameToSocketId us nick with
  | Some s => conn =? s
  | None => false
  end.

(** * Properties *)

(** ** Strings, arrays and objects *)

Example keys_in_order_ex :
  Js.keys_in_order ["familia"; "10"; "2"; "02"; "amigos"]
  = ["2"; "10"; "familia"; "02"; "amigos"].
Proof. reflexivity. Qed.

Lemma truthy_true (s : string) : Js.truthy s = true <-> s <> "".
Proof.
  unfold Js.truthy. rewrite negb_true_iff. apply String.eqb_neq.
Qed.

Lemma truthy_value_Some (s : string) :
  s <> "" -> Js.truthy_value (Some s) = Some s.
Proof.
  intros H. unfold Js.truthy_value.
  apply truthy_true in H. now rewrite H.
Qed.

Lemma truthy_value_inv (o : option string) (s : string) :
  Js.truthy_value o = Some s -> o = Some s /\ s <> "".
Proof.
  destruct o as [s'|]; simpl; [|discriminate].
  destruct (Js.truthy s') eqn:E; [|discriminate].
  intros [= ->]. split; [reflexivity | now apply truthy_true].
Qed.

Lemma includes_In (x : string) (l : list string) :
  Js.includes x l = true <-> In x l.
Proof.
  unfold Js.includes. rewrite existsb_exists. split.
  - intros (y & Hy & E). apply String.eqb_eq in E. now subst.
  - intros H. exists x. split; [assumption | apply String.eqb_refl].
Qed.

Lemma includes_not_In (x : string) (l : list string) :
  Js.includes x l = false <-> ~ In x l.
Proof.
  rewrite <- includes_In. destruct (Js.includes x l); intuition congruence.
Qed.

Lemma own_In (V : Type) (k : string) (v : V) (o : Js.Obj V) :
  Js.own k o = Some v -> In (k, v) o.
Proof.
  induction o as [|[k' v'] r IH]; simpl; [discriminate|].
  destruct (String.eqb_spec k k') as [->|_].
  - intros [= ->]. now left.
  - intros H. right. auto.
Qed.

Lemma own_key (V : Type) (k : string) (o : Js.Obj V) :
  Js.own k o <> None <-> In k (map fst o).
Proof.
  induction o as [|[k' v'] r IH]; simpl; [tauto|].
  destruct (String.eqb_spec k k') as [->|Hne].
  - split; [now left | discriminate].
  - rewrite IH. split; [now right | intros [E|H]; congruence].
Qed.

Lemma own_set_same (V : Type) (k : string) (v : V) (o : Js.Obj V) :
  Js.own k (Js.set k v o) = Some v.
Proof.
  induction o as [|[k' v'] r IH]; simpl.
  - now rewrite String.eqb_refl.
  - destruct (String.eqb_spec k k') as [->|Hne]; simpl.
    + now rewrite String.eqb_refl.
    + apply String.eqb_neq in Hne. now rewrite Hne.
Qed.

Lemma own_set_other (V : Type) (k k' : string) (v : V) (o : Js.Obj V) :
  k' <> k -> Js.own k' (Js.set k v o) = Js.own k' o.
Proof.
  intros Hne. induction o as [|[k0 v0] r IH]; simpl.
  - apply String.eqb_neq in Hne. now rewrite Hne.
  - destruct (String.eqb_spec k k0) as [->|Hk]; simpl.
    + apply String.eqb_neq in Hne. now rewrite Hne.
    + destruct (k' =? k0); [reflexivity | exact IH].
Qed.

Lemma keys_set (V : Type) (k k' : string) (v : V) (o : Js.Obj V) :
  In k' (map fst (Js.set k v o)) <-> k' = k \/ In k' (map fst o).
Proof.
  induction o as [|[k0 v0] r IH]; simpl.
  - intuition.
  - destruct (String.eqb_spec k k0) as [->|Hk]; simpl.
    + intuition.
    + rewrite IH. intuition.
Qed.

(** *** Enumeration: [Object.keys] lists exactly the own keys *)

Lemma insert_index_In (e x : N * string) (l : list (N * string)) :
  In x (Js.insert_index e l) <-> x = e \/ In x l.
Proof.
  induction l as [|e' r IH]; simpl.
  - intuition.
  - destruct (fst e <=? fst e')%N; simpl; [intuition|].
    rewrite IH. intuition.
Qed.

Lemma sort_index_In (x : N * string) (l : list (N * string)) :
  In x (Js.sort_index l) <-> In x l.
Proof.
  induction l as [|e r IH]; simpl; [tauto|].
  rewrite insert_index_In, IH. intuition.
Qed.

Lemma keys_in_order_In (k : string) (ks : list string) :
  In k (Js.keys_in_order ks) <-> In k ks.
Proof.
  unfold Js.keys_in_order. rewrite in_app_iff, in_map_iff, filter_In.
  unfold Js.is_index. split.
  - intros [((n & k') & E & H) | [H _]]; [|assumption].
    simpl in E. subst k'. apply (proj1 (sort_index_In _ _)) in H.
    unfold Js.index_keys in H. apply in_flat_map in H.
    destruct H as (k' & Hk' & H).
    destruct (Js.array_index k'); simpl in H; [|contradiction].
    destruct H as [[= _ ->] | []]. assumption.
  - intros H. destruct (Js.array_index k) as [n|] eqn:E.
    + left. exists (n, k). split; [reflexivity|].
      apply sort_index_In. unfold Js.index_keys. apply in_flat_map.
      exists k. split; [assumption|]. rewrite E. now left.
    + right. now split.
Qed.

Lemma keys_In (V : Type) (k : string) (o : Js.Obj V) :
  In k (Js.keys o) <-> Js.own k o <> None.
Proof.
  unfold Js.keys. rewrite keys_in_order_In. symmetry. apply own_key.
Qed.

Lemma entries_In (V : Type) (k : string) (v : V) (o : Js.Obj V) :
  In (k, v) (Js.entries o) <-> Js.own k o = Some v.
Proof.
  unfold Js.entries. rewrite in_flat_map. split.
  - intros (k' & _ & H). destruct (Js.own k' o) as [v'|] eqn:E;
      simpl in H; [|contradiction].
    destruct H as [[= -> ->] | []]. assumption.
  - intros H. exists k. split.
    + apply keys_In. congruence.
    + rewrite H. now left.
Qed.

Lemma values_In (V : Type) (v : V) (o : Js.Obj V) :
  In v (Js.values o) <-> exists k, Js.own k o = Some v.
Proof.
  unfold Js.values. rewrite in_map_iff. split.
  - intros ((k & v') & E & H). simpl in E. subst v'.
    exists k. now apply entries_In.
  - intros (k & H). exists (k, v). split; [reflexivity|].
    now apply entries_In.
Qed.

(** *** [nicknameToSocketId] *)

(** A nickname resolves to a socket id exactly when that id is truthy and
    its entry is the first entry of [users], in enumeration order, that
    holds the nickname. *)
Lemma nicknameToSocketId_first (us : Js.Obj string) (nickname : string)
  (sid : SocketId) :
  nicknameToSocketId us nickname = Some sid <->
  sid <> "" /\
  exists before after,
    Js.entries us = before ++ (sid, nickname) :: after /\
    forall e, In e before -> snd e <> nickname.
Proof.
  unfold nicknameToSocketId. split.
  - destruct (find _ _) as [[s n]|] eqn:F; [|discriminate].
    destruct (Js.truthy s) eqn:T; [|discriminate].
    intros [= ->]. split; [now apply truthy_true|].
    revert F. generalize (Js.entries us). intros l.
    induction l as [|[s' n'] r IH]; simpl; [discriminate|].
    destruct (String.eqb_spec n' nickname) as [->|Hne].
    + intros [= -> ->]. exists [], r. split; [reflexivity | intros e []].
    + intros F. destruct (IH F) as (b & a & -> & Hb).
      exists ((s', n') :: b), a. split; [reflexivity|].
      intros e [<- | He]; [exact Hne | now apply Hb].
  - intros (Hs & b & a & -> & Hb).
    assert (F : find (fun e : string * string => snd e =? nickname)
                  (b ++ (sid, nickname) :: a) = Some (sid, nickname)).
    { induction b as [|[s' n'] b IH]; simpl.
      - now rewrite String.eqb_refl.
      - assert (He : n' <> nickname) by (apply (Hb (s', n')); now left).
        apply String.eqb_neq in He. rewrite He.
        apply IH. intros e' He'. apply Hb. now right. }
    rewrite F. apply truthy_true in Hs. now rewrite Hs.
Qed.

(** A resolved socket id belongs to a connection that holds the nickname. *)
Lemma nicknameToSocketId_own (us : Js.Obj string) (nickname : string)
  (sid : SocketId) :
  nicknameToSocketId us nickname = Some sid ->
  Js.own sid us = Some nickname.
Proof.
  intros H. apply nicknameToSocketId_first in H.
  destruct H as (_ & b & a & E & _).
  apply entries_In. rewrite E. apply in_or_app. right. now left.
Qed.

(** ** Filtering the history *)

Section FilterThrowing.
Variable A : Type.
Variable f : A -> option bool.

Lemma filter_throwing_app (l : list A) (a : A) :
  filter_throwing f (l ++ [a]) =
  match filter_throwing f l, f a with
  | Some l', Some b => Some (l' ++ if b then [a] else [])
  | _, _ => None
  end.
Proof.
  induction l as [|x r IH]; simpl.
  - destruct (f a) as [[|]|]; reflexivity.
  - destruct (f x) as [bx|]; [|reflexivity].
    rewrite IH. destruct (filter_throwing f r) as [r'|]; [|reflexivity].
    destruct (f a) as [b|]; [|reflexivity].
    destruct bx; reflexivity.
Qed.

Lemma filter_throwing_In (l l' : list A) (a : A) :
  filter_throwing f l = Some l' ->
  In a l' -> In a l /\ f a = Some true.
Proof.
  revert l'. induction l as [|x r IH]; simpl; intros l'.
  - intros [= <-] [].
  - destruct (f x) as [bx|] eqn:Fx; [|discriminate].
    destruct (filter_throwing f r) as [r'|]; [|discriminate].
    intros [= <-] H. destruct bx.
    + destruct H as [<- | H]; [now split; [left|]|].
      destruct (IH r' eq_refl H). split; [now right | assumption].
    + destruct (IH r' eq_refl H). split; [now right | assumption].
Qed.

Lemma filter_throwing_total (l : list A) :
  (forall a, In a l -> f a <> None) ->
  exists l', filter_throwing f l = Some l'.
Proof.
  induction l as [|x r IH]; simpl; intros H.
  - now exists [].
  - destruct (f x) as [bx|] eqn:Fx.
    + destruct IH as (r' & ->); [intros a Ha; apply H; now right|].
      eauto.
    + exfalso. apply (H x); [now left | assumption].
Qed.
End FilterThrowing.

Lemma visible_throws (groups : Js.Obj (list string)) (nickname : string)
  (msg : Message) :
  visible groups nickname msg = None <-> throws groups msg = true.
Proof.
  unfold visible, throws.
  destruct (String.eqb_spec (type msg) "public") as [E|_].
  - rewrite E. simpl. split; discriminate.
  - destruct (String.eqb_spec (type msg) "private") as [E|_].
    + rewrite E. simpl. split; discriminate.
    + destruct (type msg =? "group"); simpl; [|split; discriminate].
      destruct (groups_get groups (property_key (target msg)));
        split; congruence.
Qed.

Lemma filterable_total (st : State) (nickname : string) :
  filterable st = true ->
  exists history, filterHistoryForNickname st nickname = Some history.
Proof.
  unfold filterable, filterHistoryForNickname. rewrite forallb_forall.
  intros H. apply filter_throwing_total. intros msg Hin Hv.
  apply visible_throws in Hv. apply H in Hin. rewrite Hv in Hin.
  discriminate.
Qed.

(** ** Who receives what *)

Lemma received_app (conn : SocketId) (out out' : list Emission) :
  received conn (out ++ out') = received conn out ++ received conn out'.
Proof. unfold received. apply flat_map_app. Qed.

Lemma received_In (conn : SocketId) (out : list Emission) (e : Event) :
  In e (received conn out) <->
  exists em, In em out /\ addressed conn em = Some e.
Proof.
  unfold received. rewrite in_flat_map. split.
  - intros (em & Hin & H). exists em. split; [assumption|].
    destruct (addressed conn em); simpl in H; [|contradiction].
    destruct H as [-> | []]. reflexivity.
  - intros (em & Hin & H). exists em. split; [assumption|].
    rewrite H. now left.
Qed.

Lemma addressed_IoTo (conn sid : SocketId) (e e' : Event) :
  addressed conn (IoTo sid e) = Some e' <-> conn = sid /\ e' = e.
Proof.
  simpl. destruct (String.eqb_spec conn sid); split.
  - intros [= ->]. now split.
  - intros [_ ->]. reflexivity.
  - discriminate.
  - intros [? _]. contradiction.
Qed.

(** The loop over the members of a group reaches the sockets the members
    resolve to, the skipped one apart. *)
Lemma to_members_received (us : Js.Obj string) (skip : option SocketId)
  (e : Event) (members : list string) (conn : SocketId) (e' : Event) :
  In e' (received conn (to_members us skip e members)) <->
  e' = e /\ skip <> Some conn /\
  exists nick, In nick members /\ nicknameToSocketId us nick = Some conn.
Proof.
  rewrite received_In. unfold to_members. split.
  - intros (em & Hin & Ha). apply in_flat_map in Hin.
    destruct Hin as (nick & Hnick & Hin).
    destruct (nicknameToSocketId us nick) as [sid|] eqn:R;
      [|contradiction].
    destruct skip as [s|].
    + destruct (String.eqb_spec sid s) as [->|Hne]; [contradiction|].
      destruct Hin as [<- | []]. apply addressed_IoTo in Ha.
      destruct Ha as [-> ->]. split; [reflexivity|].
      split; [congruence | eauto].
    + destruct Hin as [<- | []]. apply addressed_IoTo in Ha.
      destruct Ha as [-> ->]. split; [reflexivity|].
      split; [discriminate | eauto].
  - intros (-> & Hskip & nick & Hnick & R).
    exists (IoTo conn e). split; [|now apply addressed_IoTo].
    apply in_flat_map. exists nick. split; [assumption|]. rewrite R.
    destruct skip as [s|]; [|now left].
    destruct (String.eqb_spec conn s) as [->|_]; [congruence | now left].
Qed.

(** *** First holders *)

Lemma first_holder_own (us : Js.Obj string) (nick : string)
  (conn : SocketId) :
  first_holder us nick conn -> Js.own conn us = Some nick.
Proof.
  intros (b & a & E & _). apply entries_In. rewrite E.
  apply in_or_app. right. now left.
Qed.

Lemma first_occurrence (l : list (string * string)) (nick k : string) :
  In (k, nick) l ->
  exists before s after,
    l = before ++ (s, nick) :: after /\
    forall e, In e before -> snd e <> nick.
Proof.
  induction l as [|[s' n'] r IH]; [intros []|].
  destruct (String.eqb_spec n' nick) as [->|Hne].
  - intros _. exists [], s', r. split; [reflexivity | intros e []].
  - intros [[= _ E] | H]; [congruence|].
    destruct (IH H) as (b & s & a & -> & Hb).
    exists ((s', n') :: b), s, a. split; [reflexivity|].
    intros e [<- | He]; [exact Hne | now apply Hb].
Qed.

(** A nickname that is held has a first holder. *)
Lemma first_holder_exists (us : Js.Obj string) (nick : string)
  (k : SocketId) :
  Js.own k us = Some nick -> exists conn, first_holder us nick conn.
Proof.
  intros H. apply entries_In in H.
  destruct (first_occurrence _ _ _ H) as (b & s & a & E & Hb).
  exists s, b, a. now split.
Qed.

(** When no nickname is held twice, the first holder of a nickname is its
    holder. *)
Lemma first_holder_only_holder (us : Js.Obj string) (nick : string)
  (conn : SocketId) :
  one_holder_each us ->
  (first_holder us nick conn <-> Js.own conn us = Some nick).
Proof.
  intros Hone. split; [apply first_holder_own|].
  intros H. destruct (first_holder_exists _ _ H) as (c & Hc).
  pose proof (first_holder_own Hc) as Hc'.
  now rewrite (Hone conn c nick H Hc').
Qed.

(** The members' sockets a loop of [to_members] reaches, read off [users]:
    for each member nickname, its first holder, when that socket's id is
    not empty and it is not the socket left out. *)
Lemma to_members_first_holders (us : Js.Obj string) (skip : option SocketId)
  (e : Event) (members : list string) (conn : SocketId) (e' : Event) :
  In e' (received conn (to_members us skip e members)) <->
  e' = e /\ skip <> Some conn /\ conn <> "" /\
  exists nick, In nick members /\ first_holder us nick conn.
Proof.
  rewrite to_members_received. split.
  - intros (E & Hs & nick & Hin & R).
    apply nicknameToSocketId_first in R. destruct R as [Hne Hf].
    repeat split; try assumption. now exists nick.
  - intros (E & Hs & Hne & nick & Hin & Hf).
    repeat split; try assumption. exists nick. split; [assumption|].
    apply nicknameToSocketId_first. now split.
Qed.

(** ** The invariant of the reachable states *)

Lemma groups_get_Members (gs : Js.Obj (list string)) (g : string)
  (members : list string) :
  groups_get gs g = Members members <-> Js.own g gs = Some members.
Proof.
  unfold groups_get. destruct (Js.own g gs) as [m|].
  - split; congruence.
  - destruct (Js.inherited g); split; discriminate.
Qed.

Lemma groups_get_Undefined (gs : Js.Obj (list string)) (g : string) :
  groups_get gs g = Undefined <-> Js.own g gs = None /\ Js.inherited g = false.
Proof.
  unfold groups_get. destruct (Js.own g gs) as [m|].
  - split; [discriminate | intros [? _]; discriminate].
  - destruct (Js.inherited g); split; try discriminate; try tauto.
    intros [_ ?]. discriminate.
Qed.


Lemma push_invariant (st : State) (msg : Message) :
  invariant st -> well_formed msg ->
  (type msg = "group" ->
   exists g, target msg = Some g /\ Js.inherited g = false) ->
  invariant (push st msg).
Proof.
  intros (Hg & Hh & Ht) Hwf Hgroup. split; [exact Hg|]. split.
  - simpl. apply Forall_app. split; [exact Hh | now constructor].
  - intros m Hin. simpl in Hin. apply in_app_or in Hin.
    destruct Hin as [Hin | [<- | []]]; [now apply Ht | exact Hgroup].
Qed.

Lemma well_formed_public (sid : SocketId) (n t : string) (i : Image)
  (now : Z) :
  well_formed (mkMessage sid n t i now "public" None).
Proof.
  split; [now left|]. simpl. split; [congruence|].
  intros [H|H]; discriminate.
Qed.

Lemma well_formed_targeted (sid : SocketId) (n t : string) (i : Image)
  (now : Z) (kind tgt : string) :
  kind = "private" \/ kind = "group" ->
  well_formed (mkMessage sid n t i now kind (Some tgt)).
Proof.
  intros H. split; [now right|]. simpl. split; [auto | discriminate].
Qed.

Lemma forEach_total (A : Type) (body : A -> option (list Emission))
  (f : A -> list Emission) (l : list A) :
  (forall a, body a = Some (f a)) ->
  forEach body l = (flat_map f l, false).
Proof.
  intros H. induction l as [|a r IH]; simpl; [reflexivity|].
  now rewrite H, IH.
Qed.

(** What [reset] does, in closed form. *)
Lemma reset_eq (st : State) :
  reset st =
  Done (mkState (users st) [] [])
       (IoEmit (UserList (Js.values (users st)))
        :: flat_map (fun e : SocketId * string =>
                       [IoTo (fst e) (GroupList []);
                        IoTo (fst e) (ChatHistory [])])
                    (Js.entries (users st))).
Proof.
  unfold reset. simpl.
  rewrite (forEach_total _
             (fun e : SocketId * string =>
                [IoTo (fst e) (GroupList []); IoTo (fst e) (ChatHistory [])])).
  - reflexivity.
  - intros [sid nick]. reflexivity.
Qed.

(** Every handler keeps the invariant, also when it throws. *)
Lemma handle_invariant (st : State) (i : Input) :
  invariant st -> invariant (state_of (handle st i)).
Proof.
  intros Inv. pose proof Inv as (Hg & Hh & Ht).
  destruct i as [sid nickname | sid msg now | sid tgt msg now
                | sid g msg now | sid g members | sid ty tgt | sid | | sid ev ]; simpl.
  - unfold set_nickname.
    destruct (filterHistoryForNickname _ _); exact Inv.
  - unfold chat_public. simpl. apply push_invariant; [exact Inv | |].
    + destruct msg; apply well_formed_public.
    + destruct msg; discriminate.
  - unfold chat_private.
    destruct (nicknameToSocketId _ _); simpl; [|exact Inv].
    apply push_invariant; [exact Inv | | discriminate].
    apply well_formed_targeted. now left.
  - unfold chat_group.
    destruct (Js.truthy g) eqn:Tg; simpl; [|exact Inv].
    destruct (groups_get (groups st) g) as [members| |] eqn:G;
      [| destruct (Js.truthy_value _); exact Inv | exact Inv].
    destruct (Js.truthy_value _); simpl; [|exact Inv].
    destruct (Js.includes _ _); simpl; [|exact Inv].
    apply push_invariant; [exact Inv | |].
    + apply well_formed_targeted. now right.
    + intros _. exists g. split; [reflexivity|].
      apply groups_get_Members in G. apply (Hg g).
      apply own_key. congruence.
  - unfold create_group.
    destruct (negb (Js.truthy g) || _) eqn:C; simpl; [exact Inv|].
    apply orb_false_iff in C. destruct C as [Tg _].
    apply negb_false_iff, truthy_true in Tg.
    destruct (groups_get (groups st) g) eqn:G; simpl; try exact Inv.
    destruct (length _ =? 0)%nat; simpl; [exact Inv|].
    split; [|split; assumption]. intros g' Hin. simpl in Hin.
    apply keys_set in Hin. destruct Hin as [-> | Hin]; [|now apply Hg].
    apply groups_get_Undefined in G. tauto.
  - unfold typing. destruct (ty =? "public"); simpl; [exact Inv|].
    destruct (if ty =? "private" then _ else _).
    + destruct (nicknameToSocketId _ _); exact Inv.
    + destruct (if ty =? "group" then _ else _); [|exact Inv].
      destruct (groups_get _ _); exact Inv.
  - exact Inv.
  - rewrite reset_eq. simpl. split; [|split].
    + intros g [].
    + constructor.
    + intros m [].
  - exact Inv.
Qed.

Lemma reachable_invariant (st : State) : reachable st -> invariant st.
Proof.
  induction 1 as [| st i st' out _ IH H | st _ IH].
  - split; [|split].
    + intros g [].
    + constructor.
    + intros m [].
  - apply (handle_invariant i) in IH. now rewrite H in IH.
  - destruct IH as (_ & Hh & Ht). split; [|split; assumption].
    intros g [].
Qed.



Lemma reachable_group_names (st : State) (g : string)
  (members : list string) :
  reachable st -> Js.own g (groups st) = Some members -> g <> "".
Proof.
  intros H E. apply reachable_invariant in H. destruct H as (Hg & _).
  apply (Hg g). apply own_key. congruence.
Qed.

Lemma run_reachable (inputs : list Input) (st st' : State) :
  reachable st -> run st inputs = Some st' -> reachable st'.
Proof.
  revert st. induction inputs as [|i r IH]; simpl; intros st Hr.
  - now intros [= <-].
  - destruct (handle st i) as [st1 out|] eqn:H; [|discriminate].
    apply IH. exact (reachable_handle i Hr H).
Qed.

(** ** Private messages *)

Lemma sender_name_own (st : State) (sid : SocketId) (nick : string) :
  Js.own sid (users st) = Some nick -> nick <> "" ->
  sender_name st sid = nick.
Proof.
  intros E H. unfold sender_name. rewrite E.
  now rewrite (truthy_value_Some H).
Qed.

(** A private record is shown to the viewers named as its sender or its
    target, and to nobody else. *)
Lemma visible_private (gs : Js.Obj (list string)) (V : string)
  (sid : SocketId) (n t : string) (i : Image) (now : Z) (tgt : string) :
  visible gs V (mkMessage sid n t i now "private" (Some tgt))
  = Some ((n =? V) || (tgt =? V)).
Proof. reflexivity. Qed.

(** C1, the claim as stated, fails on a sender whose nickname is the empty
    string: the record is stored under the name "Desconocido", so it is
    absent from the history filtered for the sender's nickname and present
    in the history filtered for the third nickname "Desconocido". *)
Lemma private_message_empty_nickname :
  let st := mkState [("s1", ""); ("s2", "bob")] [] [] in
  let msg := Payload.mk None (Some "hola") None in
  let message :=
    mkMessage "s1" "Desconocido" "hola" ImageNull 7 "private" (Some "bob") in
  run initial [SetNickname "s1" ""; SetNickname "s2" "bob"] = Some st /\
  Js.own "s1" (users st) = Some "" /\
  nicknameToSocketId (users st) "bob" = Some "s2" /\
  chat_private st "s1" "bob" msg 7
  = Done (push st message)
         [SocketEmit "s1" (ChatMessage message);
          IoTo "s2" (ChatMessage message)] /\
  filterHistoryForNickname (push st message) "" = Some [] /\
  filterHistoryForNickname (push st message) "Desconocido" = Some [message].
Proof. repeat split. Qed.

(** C1 (amended): when a connection whose nickname [A] is not empty sends a
    private message to a nickname [B] that resolves to a live connection,
    the message is stored, the [chat message] event goes to the sending
    connection and to the connection [B] resolves to and to no other, and
    in a state whose history can be filtered (every reachable state is one)
    the stored record is in the history filtered for [A] and for [B] and in
    the history filtered for no other nickname. *)
Theorem private_message_visibility (st : State) (sid : SocketId)
  (A B : string) (targetId : SocketId) (msg : Payload.t) (now : Z) :
  Js.own sid (users st) = Some A ->
  A <> "" ->
  nicknameToSocketId (users st) B = Some targetId ->
  filterable st = true ->
  let message :=
    mkMessage sid A (message_text msg) (message_image msg) now "private"
              (Some B) in
  exists out,
    chat_private st sid B msg now = Done (push st message) out /\
    (forall conn,
        In (ChatMessage message) (received conn out) <->
        conn = sid \/ conn = targetId) /\
    (forall conn e, In e (received conn out) -> e = ChatMessage message) /\
    forall V, exists history,
        filterHistoryForNickname (push st message) V = Some history /\
        (In message history <-> V = A \/ V = B).
Proof.
  intros HA HAne HB Hf message.
  exists [SocketEmit sid (ChatMessage message);
          IoTo targetId (ChatMessage message)].
  split; [|split; [|split]].
  - unfold chat_private. rewrite HB, (sender_name_own _ _ HA HAne).
    reflexivity.
  - intros conn. simpl.
    destruct (String.eqb_spec conn sid) as [Hs|Hs];
      destruct (String.eqb_spec conn targetId) as [Ht|Ht]; simpl;
      intuition congruence.
  - intros conn e. simpl.
    destruct (conn =? sid); destruct (conn =? targetId); simpl;
      intuition congruence.
  - intros V. destruct (filterable_total st V Hf) as (h0 & Hh0).
    unfold filterHistoryForNickname in *. simpl.
    rewrite filter_throwing_app, Hh0. unfold message at 1.
    rewrite visible_private.
    destruct (String.eqb_spec A V) as [->|HneA]; simpl.
    + eexists. split; [reflexivity|]. split; [now left|].
      intros _. apply in_or_app. right. now left.
    + destruct (String.eqb_spec B V) as [->|HneB].
      * eexists. split; [reflexivity|]. split; [now right|].
        intros _. apply in_or_app. right. now left.
      * exists (h0 ++ []). split; [reflexivity|]. rewrite app_nil_r. split.
        -- intros Hin.
           destruct (filter_throwing_In _ _ _ Hh0 Hin) as [_ Hv].
           unfold message in Hv. rewrite visible_private in Hv.
           apply String.eqb_neq in HneA, HneB.
           rewrite HneA, HneB in Hv. discriminate.
        -- intros [E|E]; congruence.
Qed.

(** C1 (amended) at work: ana writes to bob while caro is connected. *)
Lemma private_message_visibility_witness :
  let st := mkState [("s1", "ana"); ("s2", "bob"); ("s3", "caro")] [] [] in
  let message :=
    mkMessage "s1" "ana" "hola" ImageNull 7 "private" (Some "bob") in
  exists out,
    chat_private st "s1" "bob" (Payload.mk None (Some "hola") None) 7
    = Done (push st message) out /\
    (forall conn,
        In (ChatMessage message) (received conn out) <->
        conn = "s1" \/ conn = "s2") /\
    (forall conn e, In e (received conn out) -> e = ChatMessage message) /\
    forall V, exists history,
        filterHistoryForNickname (push st message) V = Some history /\
        (In message history <-> V = "ana" \/ V = "bob").
Proof.
  apply (@private_message_visibility
           (mkState [("s1", "ana"); ("s2", "bob"); ("s3", "caro")] [] [])
           "s1" "ana" "bob" "s2" (Payload.mk None (Some "hola") None) 7).
  - reflexivity.
  - discriminate.
  - reflexivity.
  - reflexivity.
Defined.

(** C8: a connection that holds the nickname [N] and is the connection [N]
    resolves to (the first holder of [N] in the enumeration order of
    [users], see [nicknameToSocketId_first]) sends a private message to
    [N]: the message is stored once and that connection is sent the
    [chat message] event twice, by [socket.emit] and by [io.to]. *)
Theorem self_private_message_doubled (st : State) (sid : SocketId)
  (N : string) (msg : Payload.t) (now : Z) :
  Js.own sid (users st) = Some N ->
  nicknameToSocketId (users st) N = Some sid ->
  let message :=
    mkMessage sid (sender_name st sid) (message_text msg)
              (message_image msg) now "private" (Some N) in
  let out :=
    [SocketEmit sid (ChatMessage message); IoTo sid (ChatMessage message)] in
  chat_private st sid N msg now = Done (push st message) out /\
  received sid out = [ChatMessage message; ChatMessage message] /\
  forall conn, conn <> sid -> received conn out = [].
Proof.
  intros _ HN message out. split; [|split].
  - unfold chat_private. now rewrite HN.
  - unfold out, received. simpl. now rewrite String.eqb_refl.
  - intros conn Hne. unfold out, received. simpl.
    apply String.eqb_neq in Hne. now rewrite Hne.
Qed.

(** C8 at work: ana, the only holder of her nickname, writes to herself. *)
Lemma self_private_message_doubled_witness :
  let st := mkState [("s1", "ana"); ("s2", "bob")] [] [] in
  let message :=
    mkMessage "s1" "ana" "nota" ImageNull 9 "private" (Some "ana") in
  let out :=
    [SocketEmit "s1" (ChatMessage message);
     IoTo "s1" (ChatMessage message)] in
  chat_private st "s1" "ana" (Payload.mk None (Some "nota") None) 9
  = Done (push st message) out /\
  received "s1" out = [ChatMessage message; ChatMessage message] /\
  forall conn, conn <> "s1" -> received conn out = [].
Proof.
  apply (@self_private_message_doubled
           (mkState [("s1", "ana"); ("s2", "bob")] [] [])
           "s1" "ana" (Payload.mk None (Some "nota") None) 9).
  - reflexivity.
  - reflexivity.
Defined.

(** ** Typing indicators *)

(** C7: a typing event of type [private] whose target resolves to no
    connection is dropped: nothing is emitted and the state is unchanged
    (the same holds when the payload has no target); a private chat message
    to the same target sends a [system message] to the sender. *)
Theorem typing_private_unresolved (st : State) (sid : SocketId)
  (target : string) (msg : Payload.t) (now : Z) :
  nicknameToSocketId (users st) target = None ->
  typing st sid "private" (Some target) = Done st [] /\
  typing st sid "private" None = Done st [] /\
  chat_private st sid target msg now
  = Done st [SocketEmit sid (SystemMessage (TargetNotConnected target))].
Proof.
  intros H. split; [|split].
  - unfold typing. simpl. destruct (Js.truthy target); simpl.
    + now rewrite H.
    + reflexivity.
  - reflexivity.
  - unfold chat_private. now rewrite H.
Qed.

(** C7 at work: ana types to, and then writes to, a nickname nobody holds. *)
Lemma typing_private_unresolved_witness :
  let st := mkState [("s1", "ana"); ("s2", "bob")] [] [] in
  typing st "s1" "private" (Some "zoe") = Done st [] /\
  typing st "s1" "private" None = Done st [] /\
  chat_private st "s1" "zoe" (Payload.mk None (Some "hola") None) 3
  = Done st [SocketEmit "s1" (SystemMessage (TargetNotConnected "zoe"))].
Proof.
  apply (@typing_private_unresolved
           (mkState [("s1", "ana"); ("s2", "bob")] [] [])
           "s1" "zoe" (Payload.mk None (Some "hola") None) 3).
  reflexivity.
Defined.

(** C10, the claim as stated, fails when two connections hold the
    nickname of a member: bob is connected twice and is the member of the
    group "G"; caro types in the group, and the second connection of bob, a
    live connection of a member that is not the sender's, is sent nothing. *)
Lemma typing_group_second_holder :
  let st := mkState [("s1", "bob"); ("s2", "bob"); ("s3", "caro")]
                    [("G", ["bob"])] [] in
  let e := Typing (Some "caro") "group" (Some "G") in
  run initial [SetNickname "s1" "bob"; SetNickname "s2" "bob";
               SetNickname "s3" "caro"; CreateGroup "s1" "G" ["bob"]]
  = Some st /\
  Js.own "G" (groups st) = Some ["bob"] /\
  Js.own "s2" (users st) = Some "bob" /\
  typing st "s3" "group" (Some "G") = Done st [IoTo "s1" e] /\
  received "s1" [IoTo "s1" e] = [e] /\
  received "s2" [IoTo "s1" e] = [].
Proof. repeat split. Qed.

(** C10 (amended): group typing indicators perform no test of the sender.
    For an existing group (its name is not empty), a typing event of type
    [group] from any connection, whatever its nickname and whether or not
    it is a member, leaves the state unchanged and is sent, for each member
    nickname that some connection holds, to the first connection that
    holds it in the enumeration order of [users], unless that is the
    sender's own connection, and to no other connection.  When no nickname
    is held by two connections (and no socket id is empty), these are all
    the connections of the members other than the sender's. *)
Theorem typing_group_no_membership_check (st : State) (sid : SocketId)
  (G : string) (members : list string) :
  Js.own G (groups st) = Some members ->
  G <> "" ->
  let e := Typing (Js.own sid (users st)) "group" (Some G) in
  let out := emissions (typing st sid "group" (Some G)) in
  typing st sid "group" (Some G) = Done st out /\
  (forall conn e',
      In e' (received conn out) <->
      e' = e /\ conn <> sid /\ conn <> "" /\
      exists nick, In nick members /\ first_holder (users st) nick conn) /\
  (one_holder_each (users st) -> ids_not_empty (users st) ->
   forall conn,
     In e (received conn out) <->
     conn <> sid /\
     exists nick, In nick members /\ Js.own conn (users st) = Some nick).
Proof.
  intros HG Hne e out.
  assert (E : typing st sid "group" (Some G)
              = Done st (to_members (users st) (Some sid) e members)).
  { apply truthy_true in Hne. apply groups_get_Members in HG.
    unfold typing. simpl. now rewrite Hne, HG. }
  assert (Hall : forall conn e',
             In e' (received conn out) <->
             e' = e /\ conn <> sid /\ conn <> "" /\
             exists nick, In nick members /\
                          first_holder (users st) nick conn).
  { intros conn e'. unfold out. rewrite E. simpl.
    rewrite to_members_first_holders.
    split; intros (H1 & H2 & H3 & H4); repeat split; try assumption;
      congruence. }
  split; [unfold out; now rewrite E|]. split; [exact Hall|].
  intros Hone Hids conn. rewrite Hall. split.
  - intros (_ & Hs & _ & nick & Hin & Hf). split; [exact Hs|].
    exists nick. split; [exact Hin | now apply first_holder_own].
  - intros (Hs & nick & Hin & Hown). split; [reflexivity|].
    split; [exact Hs|]. split; [apply Hids; congruence|].
    exists nick. split; [exact Hin|].
    now apply first_holder_only_holder.
Qed.

(** C10 (amended) at work: caro, who is not a member of the group, types
    in it; the sockets of the members ana and bob are sent the event, hers
    is not. *)
Lemma typing_group_no_membership_check_witness :
  let st := mkState [("s1", "ana"); ("s2", "bob"); ("s3", "caro")]
                    [("G", ["ana"; "bob"])] [] in
  let e := Typing (Some "caro") "group" (Some "G") in
  let out := emissions (typing st "s3" "group" (Some "G")) in
  (received "s1" out = [e] /\ received "s2" out = [e] /\
   received "s3" out = []) /\
  typing st "s3" "group" (Some "G") = Done st out /\
  (forall conn e',
      In e' (received conn out) <->
      e' = e /\ conn <> "s3" /\ conn <> "" /\
      exists nick, In nick ["ana"; "bob"] /\
                   first_holder (users st) nick conn) /\
  (one_holder_each (users st) -> ids_not_empty (users st) ->
   forall conn,
     In e (received conn out) <->
     conn <> "s3" /\
     exists nick, In nick ["ana"; "bob"] /\
                  Js.own conn (users st) = Some nick).
Proof.
  split; [repeat split|].
  apply (@typing_group_no_membership_check
           (mkState [("s1", "ana"); ("s2", "bob"); ("s3", "caro")]
                    [("G", ["ana"; "bob"])] [])
           "s3" "G" ["ana"; "bob"]).
  - reflexivity.
  - discriminate.
Defined.

(** ** Group messages *)

(** C2, the claim as stated, fails in two ways.  A member whose nickname
    is the empty string is refused: the connection "s1" takes the nickname
    "" and creates the group "G", whose member array is [""], and its group
    message is rejected for lack of permission.  And a member's nickname
    held by two connections is served once: bob is connected twice and is
    the member of "G"; the group message of his second connection is
    stored and sent to his first connection only, so the sender, a live
    connection of a member, is sent nothing. *)
Lemma group_message_refused_or_missed :
  let msg := Payload.mk None (Some "hola") None in
  (let st := mkState [("s1", "")] [("G", [""])] [] in
   run initial [SetNickname "s1" ""; CreateGroup "s1" "G" [""]] = Some st /\
   Js.own "G" (groups st) = Some [""] /\
   Js.own "s1" (users st) = Some "" /\
   Js.includes "" [""] = true /\
   chat_group st "s1" "G" msg 5
   = Done st [SocketEmit "s1" (SystemMessage (NotAGroupMember "G"))]) /\
  (let st := mkState [("s1", "bob"); ("s2", "bob")] [("G", ["bob"])] [] in
   let message := mkMessage "s2" "bob" "hola" ImageNull 5 "group" (Some "G") in
   run initial [SetNickname "s1" "bob"; SetNickname "s2" "bob";
                CreateGroup "s1" "G" ["bob"]] = Some st /\
   Js.own "G" (groups st) = Some ["bob"] /\
   Js.own "s2" (users st) = Some "bob" /\
   chat_group st "s2" "G" msg 5
   = Done (push st message) [IoTo "s1" (ChatMessage message)] /\
   received "s1" [IoTo "s1" (ChatMessage message)] = [ChatMessage message] /\
   received "s2" [IoTo "s1" (ChatMessage message)] = []).
Proof. repeat split. Qed.

(** C2 (amended): for every group [G] with a name that is not empty and
    with member array [members]: a group message from a connection whose
    nickname is not empty and is in [members] is stored and sent, for each
    member nickname that some connection holds, to the first connection
    that holds it in the enumeration order of [users], and to no other
    connection; when no nickname is held by two connections (and no socket
    id is empty) these are exactly the connections of the nicknames in
    [members].  A group message from a connection that has no nickname, or
    whose nickname is not in [members], gets the sender alone a
    [system message] saying it has no permission, and nothing is stored. *)
Theorem group_message_delivery (st : State) (G : string)
  (members : list string) :
  Js.own G (groups st) = Some members ->
  G <> "" ->
  (forall sid nick msg now,
      Js.own sid (users st) = Some nick -> nick <> "" -> In nick members ->
      let message :=
        mkMessage sid nick (message_text msg) (message_image msg) now
                  "group" (Some G) in
      let out := emissions (chat_group st sid G msg now) in
      chat_group st sid G msg now = Done (push st message) out /\
      (forall conn e,
          In e (received conn out) <->
          e = ChatMessage message /\ conn <> "" /\
          exists n, In n members /\ first_holder (users st) n conn) /\
      (one_holder_each (users st) -> ids_not_empty (users st) ->
       forall conn,
         In (ChatMessage message) (received conn out) <->
         exists n, In n members /\ Js.own conn (users st) = Some n)) /\
  (forall sid msg now,
      (forall nick, Js.own sid (users st) = Some nick -> ~ In nick members) ->
      chat_group st sid G msg now
      = Done st [SocketEmit sid (SystemMessage (NotAGroupMember G))]).
Proof.
  intros HG Hne. apply truthy_true in Hne.
  apply groups_get_Members in HG. split.
  - intros sid nick msg now Hnick Hnick_ne Hin message out.
    assert (E : chat_group st sid G msg now
                = Done (push st message)
                       (to_members (users st) None (ChatMessage message)
                                   members)).
    { unfold chat_group.
      rewrite Hne, HG, Hnick, (truthy_value_Some Hnick_ne). simpl.
      apply includes_In in Hin. now rewrite Hin. }
    assert (Hall : forall conn e,
               In e (received conn out) <->
               e = ChatMessage message /\ conn <> "" /\
               exists n, In n members /\ first_holder (users st) n conn).
    { intros conn e. unfold out. rewrite E. simpl.
      rewrite to_members_first_holders. split.
      - intros (H1 & _ & H3 & H4). repeat split; assumption.
      - intros (H1 & H3 & H4). repeat split; try assumption. discriminate. }
    split; [unfold out; now rewrite E|]. split; [exact Hall|].
    intros Hone Hids conn. rewrite Hall. split.
    + intros (_ & _ & n & Hn & Hf). exists n.
      split; [exact Hn | now apply first_holder_own].
    + intros (n & Hn & Hown). split; [reflexivity|].
      split; [apply Hids; congruence|]. exists n. split; [exact Hn|].
      now apply first_holder_only_holder.
  - intros sid msg now Hnot. unfold chat_group. rewrite Hne, HG. simpl.
    destruct (Js.truthy_value (Js.own sid (users st))) as [nick|] eqn:T;
      [|reflexivity].
    apply truthy_value_inv in T. destruct T as [Hnick _].
    apply Hnot, includes_not_In in Hnick. now rewrite Hnick.
Qed.

(** C2 (amended) at work: the group of ana and bob, with a third
    connection, caro, outside it.  Bob's message is sent to the sockets of
    ana and bob and not to caro's. *)
Lemma group_message_delivery_witness :
  let st := mkState [("s1", "ana"); ("s2", "bob"); ("s3", "caro")]
                    [("G", ["ana"; "bob"])] [] in
  (let msg := Payload.mk None (Some "hola") None in
   let message := mkMessage "s2" "bob" "hola" ImageNull 4 "group" (Some "G") in
   let out := emissions (chat_group st "s2" "G" msg 4) in
   received "s1" out = [ChatMessage message] /\
   received "s2" out = [ChatMessage message] /\
   received "s3" out = []) /\
  (forall sid nick msg now,
      Js.own sid (users st) = Some nick -> nick <> "" ->
      In nick ["ana"; "bob"] ->
      let message :=
        mkMessage sid nick (message_text msg) (message_image msg) now
                  "group" (Some "G") in
      let out := emissions (chat_group st sid "G" msg now) in
      chat_group st sid "G" msg now = Done (push st message) out /\
      (forall conn e,
          In e (received conn out) <->
          e = ChatMessage message /\ conn <> "" /\
          exists n, In n ["ana"; "bob"] /\
                    first_holder (users st) n conn) /\
      (one_holder_each (users st) -> ids_not_empty (users st) ->
       forall conn,
         In (ChatMessage message) (received conn out) <->
         exists n, In n ["ana"; "bob"] /\
                   Js.own conn (users st) = Some n)) /\
  (forall sid msg now,
      (forall nick, Js.own sid (users st) = Some nick ->
                    ~ In nick ["ana"; "bob"]) ->
      chat_group st sid "G" msg now
      = Done st [SocketEmit sid (SystemMessage (NotAGroupMember "G"))]).
Proof.
  split; [repeat split|].
  apply (@group_message_delivery
           (mkState [("s1", "ana"); ("s2", "bob"); ("s3", "caro")]
                    [("G", ["ana"; "bob"])] [])
           "G" ["ana"; "bob"]).
  - reflexivity.
  - discriminate.
Defined.

(** The two cases of C2 (amended) on that state: bob's message goes to the
    sockets of ana and bob, caro's is refused. *)
Example group_message_delivery_ex :
  let st := mkState [("s1", "ana"); ("s2", "bob"); ("s3", "caro")]
                    [("G", ["ana"; "bob"])] [] in
  let msg := Payload.mk None (Some "hola") None in
  let message := mkMessage "s2" "bob" "hola" ImageNull 4 "group" (Some "G") in
  chat_group st "s2" "G" msg 4
  = Done (push st message)
         [IoTo "s1" (ChatMessage message); IoTo "s2" (ChatMessage message)] /\
  chat_group st "s3" "G" msg 4
  = Done st [SocketEmit "s3" (SystemMessage (NotAGroupMember "G"))].
Proof. split; reflexivity. Qed.

(** ** Creating groups *)

(** The outcome of [create group] for a truthy name that is not taken and a
    non-empty array of proposed members. *)
Lemma create_group_fresh (st : State) (sid : SocketId) (G : string)
  (members : list string) :
  G <> "" -> members <> [] -> groups_get (groups st) G = Undefined ->
  create_group st sid G members =
  let valid := validMembers st sid members in
  if (length valid =? 0)%nat then
    Done st [SocketEmit sid (SystemMessage NoValidMembers)]
  else
    let groups' := Js.set G valid (groups st) in
    Done (mkState (users st) groups' (chatHistory st))
         (flat_map (fun nick =>
                      match nicknameToSocketId (users st) nick with
                      | Some s => [IoTo s (GroupList (myGroups groups' nick))]
                      | None => []
                      end) valid
          ++ [SocketEmit sid (SystemMessage (GroupCreated G (length valid)))]).
Proof.
  intros HG Hm Hfresh. unfold create_group.
  apply truthy_true in HG. rewrite HG, Hfresh.
  destruct members as [|m r]; [contradiction | reflexivity].
Qed.

(** The group-list notifications of [create group] are emitted with
    [io.to]: none of them is a [socket.emit]. *)
Lemma group_lists_not_socket_emit (us : Js.Obj string)
  (gs : Js.Obj (list string)) (valid : list string) (sid : SocketId)
  (e : Event) :
  ~ In (SocketEmit sid e)
       (flat_map (fun nick =>
                    match nicknameToSocketId us nick with
                    | Some s => [IoTo s (GroupList (myGroups gs nick))]
                    | None => []
                    end) valid).
Proof.
  intros H. apply in_flat_map in H. destruct H as (nick & _ & H).
  destruct (nicknameToSocketId us nick); simpl in H; [|contradiction].
  destruct H as [H | []]. discriminate.
Qed.

(** The group-list notifications reach only connections that hold a
    nickname. *)
Lemma group_lists_received (us : Js.Obj string) (gs : Js.Obj (list string))
  (valid : list string) (conn : SocketId) :
  Js.own conn us = None ->
  received conn
    (flat_map (fun nick =>
                 match nicknameToSocketId us nick with
                 | Some s => [IoTo s (GroupList (myGroups gs nick))]
                 | None => []
                 end) valid) = [].
Proof.
  intros Hconn. induction valid as [|nick r IH]; simpl; [reflexivity|].
  rewrite received_app, IH, app_nil_r.
  destruct (nicknameToSocketId us nick) as [s|] eqn:R; [|reflexivity].
  apply nicknameToSocketId_own in R. unfold received. simpl.
  destruct (String.eqb_spec conn s) as [->|_]; [congruence | reflexivity].
Qed.

(** C3, the claim as stated, fails: with the single connection "s1" of
    nickname "z", the proposed member "y" is filtered out, yet the request
    of "s1" is not refused (the group is stored with the creator as its only
    member), and the same request from a connection without nickname is
    refused with the notice that no member is connected, not the one of an
    invalid request. *)
Lemma create_group_all_filtered_out :
  let st := mkState [("s1", "z")] [] [] in
  filter (fun n => Js.includes n (Js.values (users st))) ["y"] = [] /\
  create_group st "s1" "G" ["y"]
  = Done (mkState (users st) [("G", ["z"])] [])
         [IoTo "s1" (GroupList ["G"]);
          SocketEmit "s1" (SystemMessage (GroupCreated "G" 1))] /\
  create_group st "s9" "G" ["y"]
  = Done st [SocketEmit "s9" (SystemMessage NoValidMembers)].
Proof. repeat split. Qed.

(** C3 (amended): group creation is refused as an invalid request exactly
    when the group name is empty or the array of proposed members is itself
    empty, before any filtering; the state is then unchanged.  When the name
    is not empty and not taken and the proposed members, not none, are all
    filtered out, the request is not refused as invalid: a creator without
    truthy nickname is told that no member is connected and no group is
    stored, and a creator with one gets the group, stored with the creator
    as its only member. *)
Theorem create_group_invalid_request (st : State) (sid : SocketId)
  (G : string) (members : list string) :
  (G = "" \/ members = [] ->
   create_group st sid G members
   = Done st [SocketEmit sid (SystemMessage InvalidRequest)]) /\
  (In (SocketEmit sid (SystemMessage InvalidRequest))
      (emissions (create_group st sid G members)) ->
   G = "" \/ members = []) /\
  (G <> "" -> members <> [] -> groups_get (groups st) G = Undefined ->
   filter (fun n => Js.includes n (Js.values (users st))) members = [] ->
   match Js.truthy_value (Js.own sid (users st)) with
   | None =>
       create_group st sid G members
       = Done st [SocketEmit sid (SystemMessage NoValidMembers)]
   | Some creatorNick =>
       exists out,
         create_group st sid G members
         = Done (mkState (users st) (Js.set G [creatorNick] (groups st))
                         (chatHistory st)) out /\
         In (SocketEmit sid (SystemMessage (GroupCreated G 1))) out
   end).
Proof.
  split; [|split].
  - intros [-> | ->]; unfold create_group; [reflexivity|].
    simpl. now rewrite orb_true_r.
  - intros H.
    destruct (String.eqb_spec G "") as [E|HG]; [now left|].
    destruct members as [|m r]; [now right|]. exfalso.
    unfold create_group in H. apply truthy_true in HG. rewrite HG in H.
    simpl in H.
    destruct (groups_get (groups st) G); simpl in H.
    + destruct H as [H | []]. discriminate.
    + destruct H as [H | []]. discriminate.
    + destruct (length _ =? 0)%nat; simpl in H.
      * destruct H as [H | []]. discriminate.
      * apply in_app_or in H. destruct H as [H | [H | []]].
        -- exact (group_lists_not_socket_emit _ _ _ _ _ H).
        -- discriminate.
  - intros HG Hm Hfresh Hfilter.
    rewrite (create_group_fresh _ _ HG Hm Hfresh).
    unfold validMembers. rewrite Hfilter.
    destruct (Js.truthy_value (Js.own sid (users st))) as [c|];
      [|reflexivity].
    simpl. eexists. split; [reflexivity|].
    apply in_or_app. right. now left.
Qed.

(** C3 (amended) at work, on the state of the counterexample: the request
    with an empty member array is the invalid one; with the member "y", who
    is not connected, the creator "z" gets a group of its own. *)
Lemma create_group_invalid_request_witness :
  let st := mkState [("s1", "z")] [] [] in
  create_group st "s1" "G" []
  = Done st [SocketEmit "s1" (SystemMessage InvalidRequest)] /\
  exists out,
    create_group st "s1" "G" ["y"]
    = Done (mkState (users st) (Js.set "G" ["z"] (groups st))
                    (chatHistory st)) out /\
    In (SocketEmit "s1" (SystemMessage (GroupCreated "G" 1))) out.
Proof.
  split.
  - apply (proj1 (create_group_invalid_request
                    (mkState [("s1", "z")] [] []) "s1" "G" [])).
    now right.
  - apply (proj2 (proj2 (create_group_invalid_request
                           (mkState [("s1", "z")] [] []) "s1" "G" ["y"]))).
    + discriminate.
    + discriminate.
    + reflexivity.
    + reflexivity.
Defined.

(** C6: when the nicknames connected are exactly x and z, the connection of
    z asks for the group "G" (a name not taken) with the proposed members x
    and y: the member array stored for "G" is x, z.  The proposed y is not
    connected and is dropped, the creator z is added. *)
Theorem create_group_filter_then_force_add (st : State) (sid : SocketId) :
  Js.own sid (users st) = Some "z" ->
  (forall n, In n (Js.values (users st)) <-> n = "x" \/ n = "z") ->
  groups_get (groups st) "G" = Undefined ->
  exists out,
    create_group st sid "G" ["x"; "y"]
    = Done (mkState (users st) (Js.set "G" ["x"; "z"] (groups st))
                    (chatHistory st)) out /\
    Js.own "G" (Js.set "G" ["x"; "z"] (groups st)) = Some ["x"; "z"].
Proof.
  intros Hz Hconn Hfresh.
  assert (Hx : Js.includes "x" (Js.values (users st)) = true).
  { apply includes_In, Hconn. now left. }
  assert (Hy : Js.includes "y" (Js.values (users st)) = false).
  { apply includes_not_In. intros H. apply Hconn in H.
    destruct H; discriminate. }
  rewrite create_group_fresh; [|discriminate|discriminate|exact Hfresh].
  unfold validMembers. rewrite Hz. simpl. rewrite Hx, Hy. simpl.
  eexists. split; [reflexivity | apply own_set_same].
Qed.

(** C6 at work: x on socket "s1", z on socket "s2", no group yet. *)
Lemma create_group_filter_then_force_add_witness :
  let st := mkState [("s1", "x"); ("s2", "z")] [] [] in
  exists out,
    create_group st "s2" "G" ["x"; "y"]
    = Done (mkState (users st) (Js.set "G" ["x"; "z"] (groups st))
                    (chatHistory st)) out /\
    Js.own "G" (Js.set "G" ["x"; "z"] (groups st)) = Some ["x"; "z"].
Proof.
  apply (@create_group_filter_then_force_add
           (mkState [("s1", "x"); ("s2", "z")] [] []) "s2").
  - reflexivity.
  - intros n. simpl. intuition.
  - reflexivity.
Defined.

(** C9: a connection with no entry in [users] asks for a group with a
    truthy name that is not taken; when at least one proposed member is a
    connected nickname the group is created, its member array is the
    proposed members that are connected nicknames, no member resolves to the
    creating connection, which is sent the confirmation and no group list,
    and a group message of the creating connection to its group is refused
    for lack of permission. *)
Theorem create_group_without_nickname (st : State) (sid : SocketId)
  (G : string) (members : list string) :
  Js.own sid (users st) = None ->
  G <> "" ->
  groups_get (groups st) G = Undefined ->
  (exists n, In n members /\ In n (Js.values (users st))) ->
  let stored :=
    filter (fun n => Js.includes n (Js.values (users st))) members in
  let st' :=
    mkState (users st) (Js.set G stored (groups st)) (chatHistory st) in
  exists out,
    create_group st sid G members = Done st' out /\
    Js.own G (groups st') = Some stored /\
    (forall n, In n stored <-> In n members /\ In n (Js.values (users st))) /\
    (forall n, In n stored -> nicknameToSocketId (users st) n <> Some sid) /\
    received sid out = [SystemMessage (GroupCreated G (length stored))] /\
    forall msg now,
      chat_group st' sid G msg now
      = Done st' [SocketEmit sid (SystemMessage (NotAGroupMember G))].
Proof.
  intros Hsid HG Hfresh (n0 & Hn0 & Hc0) stored st'.
  assert (Hstored : forall n,
             In n stored <-> In n members /\ In n (Js.values (users st))).
  { intros n. unfold stored. rewrite filter_In, includes_In. tauto. }
  assert (Hm : members <> []) by (intros ->; contradiction).
  assert (Hlen : (length stored =? 0)%nat = false).
  { apply Nat.eqb_neq. intros E. apply length_zero_iff_nil in E.
    assert (Hin : In n0 stored) by (apply Hstored; now split).
    rewrite E in Hin. contradiction. }
  rewrite (create_group_fresh _ _ HG Hm Hfresh).
  unfold validMembers. rewrite Hsid. simpl. fold stored. rewrite Hlen.
  eexists. split; [reflexivity|].
  split; [apply own_set_same|]. split; [exact Hstored|]. split; [|split].
  - intros n _ R. apply nicknameToSocketId_own in R. congruence.
  - rewrite received_app, group_lists_received by exact Hsid.
    unfold received. simpl. now rewrite String.eqb_refl.
  - intros msg now. unfold chat_group. simpl.
    apply truthy_true in HG. rewrite HG. simpl.
    unfold groups_get. rewrite own_set_same, Hsid. reflexivity.
Qed.

(** C9 at work: a connection that never chose a nickname creates a group of
    ana and bob, with a proposed member zoe who is not connected. *)
Lemma create_group_without_nickname_witness :
  let st := mkState [("s1", "ana"); ("s2", "bob")] [] [] in
  let stored := ["ana"; "bob"] in
  let st' := mkState (users st) [("G", stored)] [] in
  exists out,
    create_group st "s9" "G" ["ana"; "zoe"; "bob"] = Done st' out /\
    Js.own "G" (groups st') = Some stored /\
    (forall n, In n stored <->
               In n ["ana"; "zoe"; "bob"] /\ In n (Js.values (users st))) /\
    (forall n, In n stored -> nicknameToSocketId (users st) n <> Some "s9") /\
    received "s9" out = [SystemMessage (GroupCreated "G" (length stored))] /\
    forall msg now,
      chat_group st' "s9" "G" msg now
      = Done st' [SocketEmit "s9" (SystemMessage (NotAGroupMember "G"))].
Proof.
  apply (@create_group_without_nickname
           (mkState [("s1", "ana"); ("s2", "bob")] [] [])
           "s9" "G" ["ana"; "zoe"; "bob"]).
  - reflexivity.
  - discriminate.
  - reflexivity.
  - exists "ana". simpl. tauto.
Defined.

(** ** The history store *)

(** What a handler does to the history: nothing, or it appends one record
    of the kind of the handler, or (the reset) it empties it. *)
Lemma handle_history (st : State) (i : Input) :
  let history' := chatHistory (state_of (handle st i)) in
  history' = chatHistory st \/
  history' = [] \/
  exists message,
    history' = chatHistory st ++ [message] /\
    match i with
    | ChatPublic _ _ _ => type message = "public" /\ target message = None
    | ChatPrivate _ tgt _ _ =>
        type message = "private" /\ target message = Some tgt
    | ChatGroup _ g _ _ => type message = "group" /\ target message = Some g
    | _ => False
    end.
Proof.
  destruct i as [sid nickname | sid msg now | sid tgt msg now
                | sid g msg now | sid g members | sid ty tgt | sid | | sid ev ]; simpl.
  - unfold set_nickname. destruct (filterHistoryForNickname _ _); now left.
  - right. right. unfold chat_public. simpl. eexists. split; [reflexivity|].
    destruct msg; split; reflexivity.
  - unfold chat_private. destruct (nicknameToSocketId _ _); simpl;
      [|now left].
    right. right. eexists. split; [reflexivity|]. split; reflexivity.
  - unfold chat_group. destruct (Js.truthy g); simpl; [|now left].
    destruct (groups_get (groups st) g);
      [| destruct (Js.truthy_value _); now left | now left].
    destruct (Js.truthy_value _); simpl; [|now left].
    destruct (Js.includes _ _); simpl; [|now left].
    right. right. eexists. split; [reflexivity|]. split; reflexivity.
  - unfold create_group. destruct (negb (Js.truthy g) || _); simpl;
      [now left|].
    destruct (groups_get (groups st) g); simpl; try now left.
    destruct (length _ =? 0)%nat; now left.
  - unfold typing. destruct (ty =? "public"); simpl; [now left|].
    destruct (if ty =? "private" then _ else _).
    + destruct (nicknameToSocketId _ _); now left.
    + destruct (if ty =? "group" then _ else _); [|now left].
      destruct (groups_get _ _); now left.
  - now left.
  - right. left. rewrite reset_eq. reflexivity.
  - now left.
Qed.

(** C4, the claim as stated, fails when a client sends [null] where a
    string is expected: the connection "s1" sets the nickname [null], then
    sends a private message whose target is [null].  The target is compared
    with [===] to the stored nicknames, so it resolves to "s1", and the
    record stored has the kind private and a null target. *)
Lemma private_record_with_null_target :
  let users := Nullable.set_nickname [] "s1" None in
  let message :=
    mkMessage "s1" "Desconocido" "hola" ImageNull 7 "private" None in
  Nullable.nicknameToSocketId users None = Some "s1" /\
  Nullable.chat_private users [] "s1" None
                        (Payload.mk None (Some "hola") None) 7
  = [message] /\
  type message = "private" /\ target message = None /\
  ~ well_formed message.
Proof.
  repeat split. intros [_ [_ H]]. simpl in H.
  assert (E : @None string <> None) by (apply H; now left).
  now apply E.
Qed.

(** C4 (amended): when the nicknames, targets and group names that clients
    send are strings, in every state the server reaches from its start
    with an empty history (restarts that reload the saved history
    included), every record of the history has its kind among public,
    private and group, and a non-null target exactly when its kind is
    private or group; and any handler, run on a history of well-formed
    records, leaves a history of well-formed records: the public, private
    and group handlers append at most one record, of kind public with a
    null target, of kind private with the target nickname, of kind group
    with the group name. *)
Theorem history_well_formed :
  (forall st, reachable st -> Forall well_formed (chatHistory st)) /\
  (forall st i,
      Forall well_formed (chatHistory st) ->
      Forall well_formed (chatHistory (state_of (handle st i)))) /\
  (forall st sid msg now,
      exists message,
        state_of (chat_public st sid msg now) = push st message /\
        type message = "public" /\ target message = None) /\
  (forall st sid tgt msg now,
      state_of (chat_private st sid tgt msg now) = st \/
      exists message,
        state_of (chat_private st sid tgt msg now) = push st message /\
        type message = "private" /\ target message = Some tgt) /\
  (forall st sid g msg now,
      state_of (chat_group st sid g msg now) = st \/
      exists message,
        state_of (chat_group st sid g msg now) = push st message /\
        type message = "group" /\ target message = Some g).
Proof.
  split; [|split; [|split; [|split]]].
  - intros st H. apply reachable_invariant in H. apply H.
  - intros st i Hwf.
    destruct (handle_history st i) as [E | [E | (message & E & Hkind)]];
      rewrite E.
    + exact Hwf.
    + constructor.
    + apply Forall_app. split; [exact Hwf|]. constructor; [|constructor].
      destruct i; try contradiction; destruct Hkind as [Hty Htg];
        unfold well_formed, kind_closed; rewrite Hty, Htg;
        (split; [tauto|]); split; intros H;
        try discriminate; try congruence; try tauto.
      destruct H; discriminate.
  - intros st sid msg now. unfold chat_public. simpl.
    eexists. split; [reflexivity|]. destruct msg; split; reflexivity.
  - intros st sid tgt msg now. unfold chat_private.
    destruct (nicknameToSocketId _ _); simpl; [|now left].
    right. eexists. split; [reflexivity|]. split; reflexivity.
  - intros st sid g msg now. unfold chat_group.
    destruct (Js.truthy g); simpl; [|now left].
    destruct (groups_get (groups st) g);
      [| destruct (Js.truthy_value _); now left | now left].
    destruct (Js.truthy_value _); simpl; [|now left].
    destruct (Js.includes _ _); simpl; [|now left].
    right. eexists. split; [reflexivity|]. split; reflexivity.
Qed.

(** C4 (amended) at work: ana and bob connect, create a group, and a public, a
    private and a group message are stored; the history reached has three
    well-formed records. *)
Lemma history_well_formed_witness :
  let text := fun s => Payload.mk None (Some s) None in
  let inputs :=
    [SetNickname "s1" "ana"; SetNickname "s2" "bob";
     CreateGroup "s1" "G" ["bob"];
     ChatPublic "s1" (PubString "hola") 1;
     ChatPrivate "s1" "bob" (text "pst") 2;
     ChatGroup "s2" "G" (text "eh") 3] in
  let st :=
    mkState [("s1", "ana"); ("s2", "bob")] [("G", ["bob"; "ana"])]
            [mkMessage "s1" "ana" "hola" ImageNull 1 "public" None;
             mkMessage "s1" "ana" "pst" ImageNull 2 "private" (Some "bob");
             mkMessage "s2" "bob" "eh" ImageNull 3 "group" (Some "G")] in
  run initial inputs = Some st /\ Forall well_formed (chatHistory st).
Proof.
  intros text inputs st. split; [reflexivity|].
  apply (proj1 history_well_formed st).
  apply (@run_reachable inputs initial st reachable_initial). reflexivity.
Defined.

(** ** The administrative reset *)

(** C5, the claim as stated, fails for a connected socket that has set
    no nickname: the connection "s9" is connected (it sends a public
    message) and has no entry in [users]; the reset of a state with a
    history and a group sends it the user list and neither a group list nor
    a chat history. *)
Lemma reset_skips_sockets_without_nickname :
  let pub1 := mkMessage "s9" "Desconocido" "hola" ImageNull 1 "public" None in
  let st := mkState [("s1", "ana")] [("G", ["ana"])] [pub1] in
  run initial [SetNickname "s1" "ana"; ChatPublic "s9" (PubString "hola") 1;
               CreateGroup "s1" "G" ["ana"]] = Some st /\
  Js.own "s9" (users st) = None /\
  reset st
  = Done (mkState [("s1", "ana")] [] [])
         [IoEmit (UserList ["ana"]);
          IoTo "s1" (GroupList []); IoTo "s1" (ChatHistory [])] /\
  received "s9" (emissions (reset st)) = [UserList ["ana"]] /\
  received "s1" (emissions (reset st))
  = [UserList ["ana"]; GroupList []; ChatHistory []].
Proof. repeat split. Qed.

(** The loop of the reset reaches no socket that has no entry in [users]. *)
Lemma reset_loop_received (us : Js.Obj string) (conn : SocketId) :
  Js.own conn us = None ->
  received conn
    (flat_map (fun e : SocketId * string =>
                 [IoTo (fst e) (GroupList []);
                  IoTo (fst e) (ChatHistory [])])
              (Js.entries us)) = [].
Proof.
  intros Hconn.
  assert (H : forall l : list (SocketId * string),
             (forall e, In e l -> fst e <> conn) ->
             received conn
               (flat_map (fun e : SocketId * string =>
                            [IoTo (fst e) (GroupList []);
                             IoTo (fst e) (ChatHistory [])]) l) = []).
  { induction l as [|[s n] r IH]; intros Hl; [reflexivity|].
    assert (Hs : conn <> s).
    { intros ->. apply (Hl (s, n)); [now left | reflexivity]. }
    apply String.eqb_neq in Hs. simpl. unfold received in *. simpl.
    rewrite Hs. simpl. apply IH. intros e He. apply Hl. now right. }
  apply H. intros [s n] Hin Hs. simpl in Hs. subst s.
  apply entries_In in Hin. congruence.
Qed.

(** C5 (amended): for every state, with a history and groups or without,
    the reset empties the history and the groups and leaves [users] as it
    was; it emits the user list of the state before the reset to all, and
    to the socket of every entry of [users], that is every connection that
    has set a nickname, an empty group list and an empty chat history;
    nothing else is emitted, so a connected socket without nickname is sent
    the user list only. *)
Theorem reset_clears_history_and_groups (st : State) :
  let out :=
    IoEmit (UserList (Js.values (users st)))
    :: flat_map (fun e : SocketId * string =>
                   [IoTo (fst e) (GroupList []);
                    IoTo (fst e) (ChatHistory [])])
                (Js.entries (users st)) in
  reset st = Done (mkState (users st) [] []) out /\
  (forall conn, In (UserList (Js.values (users st))) (received conn out)) /\
  (forall sid nick,
      Js.own sid (users st) = Some nick ->
      In (GroupList []) (received sid out) /\
      In (ChatHistory []) (received sid out)) /\
  (forall conn e,
      In e (received conn out) ->
      e = UserList (Js.values (users st)) \/
      Js.own conn (users st) <> None /\
      (e = GroupList [] \/ e = ChatHistory [])) /\
  (forall conn,
      Js.own conn (users st) = None ->
      received conn out = [UserList (Js.values (users st))]).
Proof.
  intros out. split; [apply reset_eq|]. split; [|split; [|split]].
  - intros conn. unfold out, received. simpl. now left.
  - intros sid nick Hsid. apply entries_In in Hsid.
    split; apply received_In.
    + exists (IoTo sid (GroupList [])). split; [|now apply addressed_IoTo].
      right. apply in_flat_map. exists (sid, nick). split; [exact Hsid|].
      now left.
    + exists (IoTo sid (ChatHistory [])). split; [|now apply addressed_IoTo].
      right. apply in_flat_map. exists (sid, nick). split; [exact Hsid|].
      right. now left.
  - intros conn e H. apply received_In in H.
    destruct H as (em & [<- | Hin] & Ha).
    + left. simpl in Ha. congruence.
    + right. apply in_flat_map in Hin.
      destruct Hin as ((sid & nick) & Hentry & Hem).
      apply entries_In in Hentry. simpl in Hem.
      destruct Hem as [<- | [<- | []]]; apply addressed_IoTo in Ha;
        destruct Ha as [-> ->]; (split; [congruence|]); auto.
  - intros conn Hconn. unfold out.
    pose proof (@reset_loop_received (users st) conn Hconn) as H.
    unfold received in *. simpl. now rewrite H.
Qed.

(** C5 (amended) at work, on a history with a public, a private and a
    group record and one group. *)
Lemma reset_clears_history_and_groups_witness :
  let pub1 := mkMessage "s1" "ana" "hola" ImageNull 1 "public" None in
  let priv1 := mkMessage "s1" "ana" "pst" ImageNull 2 "private" (Some "bob") in
  let grp1 := mkMessage "s2" "bob" "eh" ImageNull 3 "group" (Some "G") in
  let st := mkState [("s1", "ana"); ("s2", "bob")] [("G", ["ana"; "bob"])]
                    [pub1; priv1; grp1] in
  reset st
  = Done (mkState [("s1", "ana"); ("s2", "bob")] [] [])
         [IoEmit (UserList ["ana"; "bob"]);
          IoTo "s1" (GroupList []); IoTo "s1" (ChatHistory []);
          IoTo "s2" (GroupList []); IoTo "s2" (ChatHistory [])].
Proof.
  intros pub1 priv1 grp1 st.
  exact (proj1 (reset_clears_history_and_groups st)).
Defined.

(** * Further properties of the handlers *)

(** ** Objects: deletion *)

Lemma own_delete_same (V : Type) (k : string) (o : Js.Obj V) :
  Js.own k (Js.delete k o) = None.
Proof.
  induction o as [|[k' v'] r IH]; simpl; [reflexivity|].
  destruct (String.eqb_spec k k') as [->|Hne]; simpl; [exact IH|].
  apply String.eqb_neq in Hne. now rewrite Hne.
Qed.

Lemma own_delete_other (V : Type) (k k' : string) (o : Js.Obj V) :
  k' <> k -> Js.own k' (Js.delete k o) = Js.own k' o.
Proof.
  intros Hne. induction o as [|[k0 v0] r IH]; simpl; [reflexivity|].
  destruct (String.eqb_spec k k0) as [->|Hk]; simpl.
  - apply String.eqb_neq in Hne. now rewrite Hne.
  - destruct (k' =? k0); [reflexivity | exact IH].
Qed.

Lemma delete_absent (V : Type) (k : string) (o : Js.Obj V) :
  Js.own k o = None -> Js.delete k o = o.
Proof.
  induction o as [|[k' v'] r IH]; simpl; [reflexivity|].
  destruct (k =? k'); [discriminate|]. intros H. now rewrite IH.
Qed.

(** ** What each handler changes *)

(** [users] is written by [set nickname] and [disconnect] only. *)
Lemma handle_users (st : State) (i : Input) :
  users (state_of (handle st i)) =
  match i with
  | SetNickname sid nickname => Js.set sid nickname (users st)
  | Disconnect sid => Js.delete sid (users st)
  | _ => users st
  end.
Proof.
  destruct i as [sid nickname | sid msg now | sid tgt msg now
                | sid g msg now | sid g members | sid ty tgt | sid | | sid ev ]; simpl.
  - unfold set_nickname. destruct (filterHistoryForNickname _ _); reflexivity.
  - reflexivity.
  - unfold chat_private. destruct (nicknameToSocketId _ _); reflexivity.
  - unfold chat_group. destruct (Js.truthy g); simpl; [|reflexivity].
    destruct (groups_get (groups st) g);
      [| destruct (Js.truthy_value _); reflexivity | reflexivity].
    destruct (Js.truthy_value _); simpl; [|reflexivity].
    destruct (Js.includes _ _); reflexivity.
  - unfold create_group. destruct (negb (Js.truthy g) || _); simpl;
      [reflexivity|].
    destruct (groups_get (groups st) g); simpl; try reflexivity.
    destruct (length _ =? 0)%nat; reflexivity.
  - unfold typing. destruct (ty =? "public"); simpl; [reflexivity|].
    destruct (if ty =? "private" then _ else _).
    + destruct (nicknameToSocketId _ _); reflexivity.
    + destruct (if ty =? "group" then _ else _); [|reflexivity].
      destruct (groups_get _ _); reflexivity.
  - reflexivity.
  - rewrite reset_eq. reflexivity.
  - reflexivity.
Qed.

(** [groups] is written by a successful [create group], which adds one
    group under a new name, and by the reset, which empties it. *)
Lemma handle_groups (st : State) (i : Input) :
  let groups' := groups (state_of (handle st i)) in
  groups' = groups st \/
  (i = Reset /\ groups' = []) \/
  exists sid G members,
    i = CreateGroup sid G members /\
    groups' = Js.set G (validMembers st sid members) (groups st) /\
    G <> "" /\ groups_get (groups st) G = Undefined /\
    validMembers st sid members <> [].
Proof.
  destruct i as [sid nickname | sid msg now | sid tgt msg now
                | sid g msg now | sid g members | sid ty tgt | sid | | sid ev ]; simpl.
  - unfold set_nickname. destruct (filterHistoryForNickname _ _); now left.
  - now left.
  - unfold chat_private. destruct (nicknameToSocketId _ _); now left.
  - unfold chat_group. destruct (Js.truthy g); simpl; [|now left].
    destruct (groups_get (groups st) g);
      [| destruct (Js.truthy_value _); now left | now left].
    destruct (Js.truthy_value _); simpl; [|now left].
    destruct (Js.includes _ _); now left.
  - unfold create_group.
    destruct (negb (Js.truthy g) || _) eqn:C; simpl; [now left|].
    apply orb_false_iff in C. destruct C as [Tg _].
    apply negb_false_iff, truthy_true in Tg.
    destruct (groups_get (groups st) g) eqn:G; simpl; try now left.
    destruct (length _ =? 0)%nat eqn:L; simpl; [now left|].
    right. right. exists sid, g, members.
    repeat split; try assumption.
    intros E. rewrite E in L. discriminate.
  - unfold typing. destruct (ty =? "public"); simpl; [now left|].
    destruct (if ty =? "private" then _ else _).
    + destruct (nicknameToSocketId _ _); now left.
    + destruct (if ty =? "group" then _ else _); [|now left].
      destruct (groups_get _ _); now left.
  - now left.
  - right. left. rewrite reset_eq. now split.
  - now left.
Qed.

Lemma filterHistory_same_store (st st' : State) (V : string) :
  groups st' = groups st -> chatHistory st' = chatHistory st ->
  filterHistoryForNickname st' V = filterHistoryForNickname st V.
Proof. unfold filterHistoryForNickname. now intros -> ->. Qed.

(** The groups a nickname is told it belongs to are the groups whose
    member array includes it. *)
Lemma myGroups_In (gs : Js.Obj (list string)) (nick g : string) :
  In g (myGroups gs nick) <->
  exists members, Js.own g gs = Some members /\ In nick members.
Proof.
  unfold myGroups. rewrite filter_In, keys_In. split.
  - intros [Hk Hinc]. destruct (Js.own g gs) as [members|]; [|congruence].
    exists members. split; [reflexivity | now apply includes_In].
  - intros (members & E & Hin). rewrite E. split; [discriminate|].
    now apply includes_In.
Qed.

(** ** The session directory *)

(** X1: in a state whose history can be filtered, [set nickname] records
    the nickname for the connection, sends the new user list to all and,
    to the connection alone, the history filtered for the nickname and the
    list of the groups whose member array includes the nickname; the
    nickname is then in the user list. *)
Theorem set_nickname_upsert (st : State) (sid : SocketId)
  (nickname : string) :
  filterable st = true ->
  let st' := mkState (Js.set sid nickname (users st)) (groups st)
                     (chatHistory st) in
  exists history,
    filterHistoryForNickname st nickname = Some history /\
    set_nickname st sid nickname
    = Done st' [IoEmit (UserList (Js.values (users st')));
                SocketEmit sid (ChatHistory history);
                SocketEmit sid (GroupList (myGroups (groups st) nickname))] /\
    Js.own sid (users st') = Some nickname /\
    In nickname (Js.values (users st')) /\
    forall g,
      In g (myGroups (groups st) nickname) <->
      exists members, Js.own g (groups st) = Some members /\
                      In nickname members.
Proof.
  intros Hf st'. destruct (filterable_total st nickname Hf) as (h & Hh).
  exists h. split; [exact Hh|]. split; [|split; [|split]].
  - unfold set_nickname. cbv zeta.
    rewrite (@filterHistory_same_store st
               (mkState (Js.set sid nickname (users st)) (groups st)
                        (chatHistory st)) nickname eq_refl eq_refl), Hh.
    reflexivity.
  - apply own_set_same.
  - apply values_In. exists sid. apply own_set_same.
  - intros g. apply myGroups_In.
Qed.

(** X1 at work: bob, already connected as "bob", takes the nickname "rob"
    while a group of ana and rob exists. *)
Lemma set_nickname_upsert_witness :
  let st := mkState [("s1", "ana"); ("s2", "bob")] [("G", ["ana"; "rob"])]
                    [mkMessage "s1" "ana" "hola" ImageNull 1 "public" None] in
  let st' := mkState (Js.set "s2" "rob" (users st)) (groups st)
                     (chatHistory st) in
  exists history,
    filterHistoryForNickname st "rob" = Some history /\
    set_nickname st "s2" "rob"
    = Done st' [IoEmit (UserList (Js.values (users st')));
                SocketEmit "s2" (ChatHistory history);
                SocketEmit "s2" (GroupList (myGroups (groups st) "rob"))] /\
    Js.own "s2" (users st') = Some "rob" /\
    In "rob" (Js.values (users st')) /\
    forall g,
      In g (myGroups (groups st) "rob") <->
      exists members, Js.own g (groups st) = Some members /\
                      In "rob" members.
Proof.
  apply (@set_nickname_upsert
           (mkState [("s1", "ana"); ("s2", "bob")] [("G", ["ana"; "rob"])]
                    [mkMessage "s1" "ana" "hola" ImageNull 1 "public" None])
           "s2" "rob").
  reflexivity.
Defined.

(** X2: no handler changes the nickname recorded for a connection other
    than the one the input comes from (two connections may take the same
    nickname, neither entry is touched by the other), and only
    [set nickname] and [disconnect] change [users] at all. *)
Theorem session_directory_frame (st : State) (i : Input) :
  (forall sid, sender_of i <> Some sid ->
               Js.own sid (users (state_of (handle st i)))
               = Js.own sid (users st)) /\
  match i with
  | SetNickname _ _ | Disconnect _ => True
  | _ => users (state_of (handle st i)) = users st
  end.
Proof.
  rewrite handle_users. split.
  - intros sid Hs. destruct i; simpl in *; try reflexivity.
    + apply own_set_other. congruence.
    + apply own_delete_other. congruence.
  - destruct i; exact I || reflexivity.
Qed.

(** X3: [disconnect] removes the entry of the connection and nothing else:
    the other entries, the groups and the history stay, and a connection
    without entry leaves the state as it was.  The new user list goes to
    all; every remaining connection is sent the list of the groups of its
    own nickname, and nothing else is emitted. *)
Theorem disconnect_removes_session (st : State) (sid : SocketId) :
  let st' := mkState (Js.delete sid (users st)) (groups st)
                     (chatHistory st) in
  exists out,
    disconnect st sid = Done st' out /\
    Js.own sid (users st') = None /\
    (forall s, s <> sid -> Js.own s (users st') = Js.own s (users st)) /\
    (Js.own sid (users st) = None -> st' = st) /\
    (forall conn, In (UserList (Js.values (users st'))) (received conn out)) /\
    (forall s nick,
        Js.own s (users st') = Some nick ->
        In (GroupList (myGroups (groups st) nick)) (received s out)) /\
    (forall conn e,
        In e (received conn out) ->
        e = UserList (Js.values (users st')) \/
        exists nick, Js.own conn (users st') = Some nick /\
                     e = GroupList (myGroups (groups st) nick)).
Proof.
  intros st'. eexists. split; [reflexivity|].
  split; [apply own_delete_same|]. split; [intros s; apply own_delete_other|].
  split; [|split; [|split]].
  - intros H. unfold st'. rewrite (delete_absent _ _ H). now destruct st.
  - intros conn. unfold received. simpl. now left.
  - intros s nick Hs. apply received_In.
    exists (IoTo s (GroupList (myGroups (groups st) nick))).
    split; [|now apply addressed_IoTo]. right. apply in_map_iff.
    exists (s, nick). split; [reflexivity | now apply entries_In].
  - intros conn e H. apply received_In in H.
    destruct H as (em & [<- | Hin] & Ha).
    + left. simpl in Ha. injection Ha as <-. reflexivity.
    + right. apply in_map_iff in Hin.
      destruct Hin as ((s & nick) & <- & Hentry).
      apply entries_In in Hentry. apply addressed_IoTo in Ha.
      destruct Ha as [-> ->]. exists nick. now split.
Qed.

(** X4: once a connection has disconnected, a nickname that no other
    connection holds resolves to nothing: it is absent from the user list,
    and a private message to it is answered by the notice that the user is
    not connected and is not stored. *)
Theorem private_message_after_disconnect (st : State) (sid : SocketId)
  (N : string) (sender : SocketId) (msg : Payload.t) (now : Z) :
  (forall s, s <> sid -> Js.own s (users st) <> Some N) ->
  let st' := state_of (disconnect st sid) in
  ~ In N (Js.values (users st')) /\
  nicknameToSocketId (users st') N = None /\
  chat_private st' sender N msg now
  = Done st' [SocketEmit sender (SystemMessage (TargetNotConnected N))].
Proof.
  intros Hothers st'.
  assert (Hnone : forall s, Js.own s (users st') <> Some N).
  { intros s. simpl. destruct (String.eqb_spec s sid) as [->|Hne].
    - rewrite own_delete_same. discriminate.
    - rewrite (own_delete_other _ Hne). now apply Hothers. }
  assert (R : nicknameToSocketId (users st') N = None).
  { destruct (nicknameToSocketId (users st') N) as [s|] eqn:R;
      [|reflexivity].
    apply nicknameToSocketId_own in R. now apply Hnone in R. }
  split; [|split].
  - intros H. apply values_In in H. destruct H as (s & H).
    now apply Hnone in H.
  - exact R.
  - unfold chat_private. now rewrite R.
Qed.

(** X4 at work: bob leaves, ana writes to him. *)
Lemma private_message_after_disconnect_witness :
  let st := mkState [("s1", "ana"); ("s2", "bob")] [] [] in
  let st' := state_of (disconnect st "s2") in
  ~ In "bob" (Js.values (users st')) /\
  nicknameToSocketId (users st') "bob" = None /\
  chat_private st' "s1" "bob" (Payload.mk None (Some "hola") None) 5
  = Done st' [SocketEmit "s1" (SystemMessage (TargetNotConnected "bob"))].
Proof.
  apply (@private_message_after_disconnect
           (mkState [("s1", "ana"); ("s2", "bob")] [] [])
           "s2" "bob" "s1" (Payload.mk None (Some "hola") None) 5).
  intros s Hs. simpl.
  destruct (String.eqb_spec s "s1") as [->|_]; [discriminate|].
  destruct (String.eqb_spec s "s2") as [->|_]; [contradiction|discriminate].
Defined.

(** ** The group registry *)

Lemma inherited_truthy (g : string) : Js.inherited g = true -> g <> "".
Proof. intros H ->. discriminate. Qed.

Lemma groups_get_Inherited (gs : Js.Obj (list string)) (g : string) :
  groups_get gs g = Inherited <-> Js.own g gs = None /\ Js.inherited g = true.
Proof.
  unfold groups_get. destruct (Js.own g gs) as [m|].
  - split; [discriminate | intros [? _]; discriminate].
  - destruct (Js.inherited g); split; try discriminate; try tauto.
    intros [_ ?]. discriminate.
Qed.

(** X5: a request for a group whose name is taken, or is the name of a
    property that [groups] inherits from [Object.prototype] (constructor,
    toString, ...), is answered by the notice that the group exists, and
    the state is unchanged. *)
Theorem create_group_duplicate (st : State) (sid : SocketId) (G : string)
  (members : list string) :
  G <> "" -> members <> [] ->
  Js.own G (groups st) <> None \/ Js.inherited G = true ->
  create_group st sid G members
  = Done st [SocketEmit sid (SystemMessage (DuplicateGroup G))].
Proof.
  intros HG Hm Htaken. unfold create_group.
  apply truthy_true in HG. rewrite HG.
  destruct members as [|m r]; [contradiction|]. simpl.
  unfold groups_get. destruct (Js.own G (groups st)) as [ms|];
    [reflexivity|].
  destruct Htaken as [H | ->]; [contradiction | reflexivity].
Qed.

(** X5 at work: the name of an existing group, and the name toString when
    no group has it. *)
Lemma create_group_duplicate_witness :
  let st := mkState [("s1", "ana")] [("G", ["ana"])] [] in
  create_group st "s1" "G" ["ana"]
  = Done st [SocketEmit "s1" (SystemMessage (DuplicateGroup "G"))] /\
  create_group st "s1" "toString" ["ana"]
  = Done st [SocketEmit "s1" (SystemMessage (DuplicateGroup "toString"))].
Proof.
  split.
  - apply (@create_group_duplicate
             (mkState [("s1", "ana")] [("G", ["ana"])] [])
             "s1" "G" ["ana"]);
      [discriminate | discriminate | left; discriminate].
  - apply (@create_group_duplicate
             (mkState [("s1", "ana")] [("G", ["ana"])] [])
             "s1" "toString" ["ana"]);
      [discriminate | discriminate | right; reflexivity].
Defined.



(** X7: membership is fixed at creation.  Whatever the input, the reset
    apart, a group that exists keeps its member array: no handler removes
    a group or adds or removes a member, and a member that disconnects
    stays a member. *)
Theorem groups_fixed_at_creation (st : State) (i : Input) (g : string)
  (members : list string) :
  i <> Reset ->
  Js.own g (groups st) = Some members ->
  Js.own g (groups (state_of (handle st i))) = Some members.
Proof.
  intros Hi Hg.
  destruct (handle_groups st i)
    as [E | [[E _] | (sid & G & ms & _ & E & _ & Hfresh & _)]].
  - now rewrite E.
  - contradiction.
  - rewrite E. apply groups_get_Undefined in Hfresh.
    rewrite own_set_other; [exact Hg|]. intros ->.
    destruct Hfresh as [Hfresh _]. congruence.
Qed.

(** X7 at work: bob, a member of the group, disconnects. *)
Lemma groups_fixed_at_creation_witness :
  let st := mkState [("s1", "ana"); ("s2", "bob")] [("G", ["ana"; "bob"])]
                    [] in
  Js.own "G" (groups (state_of (handle st (Disconnect "s2"))))
  = Some ["ana"; "bob"].
Proof.
  apply (@groups_fixed_at_creation
           (mkState [("s1", "ana"); ("s2", "bob")] [("G", ["ana"; "bob"])] [])
           (Disconnect "s2") "G" ["ana"; "bob"]).
  - discriminate.
  - reflexivity.
Defined.

(** Every group of a reachable state has a member. *)
Lemma reachable_groups_nonempty (st : State) :
  reachable st ->
  forall g members, Js.own g (groups st) = Some members -> members <> [].
Proof.
  induction 1 as [| st i st' out _ IH H | st _ IH]; intros g members Hg.
  - discriminate.
  - assert (E : st' = state_of (handle st i)) by now rewrite H.
    subst st'. clear H.
    destruct (handle_groups st i)
      as [E | [[_ E] | (sid & G & ms & _ & E & _ & _ & Hne)]];
      rewrite E in Hg.
    + exact (IH g members Hg).
    + discriminate.
    + destruct (String.eqb_spec g G) as [->|Hneq].
      * rewrite own_set_same in Hg. congruence.
      * rewrite (own_set_other _ _ Hneq) in Hg. exact (IH g members Hg).
  - discriminate.
Qed.

(** X8: in every reachable state, every group has a member array that is
    not empty, and a name that is not the name of a property inherited from
    [Object.prototype]: a request with no valid member, or under such a
    name, never stores a group. *)
Theorem reachable_groups_well_formed (st : State) (g : string)
  (members : list string) :
  reachable st ->
  Js.own g (groups st) = Some members ->
  Js.inherited g = false /\ members <> [].
Proof.
  intros Hr Hg. pose proof (reachable_invariant Hr) as (Hnamed & _).
  assert (Hk : In g (map fst (groups st))) by (apply own_key; congruence).
  destruct (Hnamed g Hk) as [_ H2].
  split; [exact H2|].
  exact (reachable_groups_nonempty Hr g Hg).
Qed.

(** X8 at work: the group bob creates with ana. *)
Lemma reachable_groups_well_formed_witness :
  let st := mkState [("s1", "ana"); ("s2", "bob")] [("G", ["ana"; "bob"])]
                    [] in
  run initial [SetNickname "s1" "ana"; SetNickname "s2" "bob";
               CreateGroup "s2" "G" ["ana"]] = Some st /\
  Js.inherited "G" = false /\ ["ana"; "bob"] <> [].
Proof.
  intros st. split; [reflexivity|].
  apply (@reachable_groups_well_formed st "G" ["ana"; "bob"]).
  - apply (@run_reachable
             [SetNickname "s1" "ana"; SetNickname "s2" "bob";
              CreateGroup "s2" "G" ["ana"]] initial _ reachable_initial).
    reflexivity.
  - reflexivity.
Defined.

(** X9: a group message to the empty name, or to a name that is neither a
    group nor inherited, is answered by the notice that the group does not
    exist, sent to the sender alone; nothing is stored. *)
Theorem group_message_unknown_group (st : State) (sid : SocketId)
  (g : string) (msg : Payload.t) (now : Z) :
  g = "" \/ (Js.own g (groups st) = None /\ Js.inherited g = false) ->
  chat_group st sid g msg now
  = Done st [SocketEmit sid (SystemMessage (GroupNotFound g))].
Proof.
  intros [-> | H]; [reflexivity|].
  apply groups_get_Undefined in H. unfold chat_group. rewrite H.
  now destruct (Js.truthy g).
Qed.

(** X9 at work: a member of the group "G" writes to a group "H". *)
Lemma group_message_unknown_group_witness :
  let st := mkState [("s1", "ana")] [("G", ["ana"])] [] in
  chat_group st "s1" "H" (Payload.mk None (Some "hola") None) 2
  = Done st [SocketEmit "s1" (SystemMessage (GroupNotFound "H"))].
Proof.
  apply (@group_message_unknown_group
           (mkState [("s1", "ana")] [("G", ["ana"])] [])
           "s1" "H" (Payload.mk None (Some "hola") None) 2).
  right. split; reflexivity.
Defined.

(** ** Handlers that throw *)

Lemma reachable_inherited_not_own (st : State) (g : string) :
  reachable st -> Js.inherited g = true -> Js.own g (groups st) = None.
Proof.
  intros Hr Hi. destruct (Js.own g (groups st)) as [members|] eqn:E;
    [|reflexivity].
  pose proof (reachable_invariant Hr) as (Hnamed & _).
  assert (Hk : In g (map fst (groups st))) by (apply own_key; congruence).
  destruct (Hnamed g Hk) as [_ H]. congruence.
Qed.

(** X10: in every reachable state, a name that [groups] inherits from
    [Object.prototype] (constructor, toString, ...) passes the existence
    test of the group handlers without being a member array: the group
    message of a connection that holds a truthy nickname, and the group
    typing event of any connection, throw a [TypeError] before anything is
    stored or emitted. *)
Theorem inherited_group_name_throws (st : State) (g : string)
  (sid : SocketId) (nick : string) :
  reachable st ->
  Js.inherited g = true ->
  Js.own sid (users st) = Some nick -> nick <> "" ->
  (forall msg now, chat_group st sid g msg now = Threw st []) /\
  (forall sid', typing st sid' "group" (Some g) = Threw st []).
Proof.
  intros Hr Hi Hnick Hne.
  assert (G : groups_get (groups st) g = Inherited).
  { apply groups_get_Inherited.
    split; [now apply reachable_inherited_not_own | exact Hi]. }
  pose proof (inherited_truthy Hi) as Hg. apply truthy_true in Hg.
  split.
  - intros msg now. unfold chat_group.
    now rewrite Hg, G, Hnick, (truthy_value_Some Hne).
  - intros sid'. unfold typing. simpl. now rewrite Hg, G.
Qed.

(** X10 at work: ana writes to, and types in, the group "constructor". *)
Lemma inherited_group_name_throws_witness :
  let st := mkState [("s1", "ana")] [] [] in
  (forall msg now, chat_group st "s1" "constructor" msg now = Threw st []) /\
  (forall sid', typing st sid' "group" (Some "constructor") = Threw st []).
Proof.
  apply (@inherited_group_name_throws
           (mkState [("s1", "ana")] [] []) "constructor" "s1" "ana").
  - apply (@run_reachable [SetNickname "s1" "ana"] initial _
             reachable_initial).
    reflexivity.
  - reflexivity.
  - reflexivity.
  - discriminate.
Defined.



(** ** The history: what is stored and who sees it *)

Lemma app_one_not_self (A : Type) (l : list A) (a : A) : l <> l ++ [a].
Proof.
  intros E. apply (f_equal (@length A)) in E.
  rewrite length_app in E. simpl in E. lia.
Qed.

Lemma text_or_image (msg : Payload.t) :
  message_image msg = ImageNull \/ message_text msg = "".
Proof.
  unfold message_image, message_text.
  destruct (isImage msg); [now right | now left].
Qed.

(** A handler other than the reset leaves the history as it is or appends
    one record, built from the sender's socket, the name the server
    resolves for it and the time of the input. *)
Lemma handle_appends (st : State) (i : Input) :
  i <> Reset ->
  chatHistory (state_of (handle st i)) = chatHistory st \/
  exists sid message,
    chatHistory (state_of (handle st i)) = chatHistory st ++ [message] /\
    sender_of i = Some sid /\
    id message = sid /\
    name message = sender_name st sid /\
    (image message = ImageNull \/ text message = "") /\
    match i with
    | ChatPublic _ _ now | ChatPrivate _ _ _ now | ChatGroup _ _ _ now =>
        time message = now
    | _ => False
    end.
Proof.
  intros Hi.
  destruct i as [sid nickname | sid msg now | sid tgt msg now
                | sid g msg now | sid g members | sid ty tgt | sid | | sid ev ]; simpl.
  - unfold set_nickname. destruct (filterHistoryForNickname _ _); now left.
  - right. unfold chat_public. simpl. exists sid. eexists.
    split; [reflexivity|]. split; [reflexivity|].
    destruct msg; simpl; repeat split; try reflexivity.
    + now left.
    + apply text_or_image.
  - unfold chat_private. destruct (nicknameToSocketId _ _); simpl;
      [|now left].
    right. exists sid. eexists. split; [reflexivity|]. simpl.
    repeat split; try reflexivity. apply text_or_image.
  - unfold chat_group. destruct (Js.truthy g); simpl; [|now left].
    destruct (groups_get (groups st) g);
      [| destruct (Js.truthy_value _); now left | now left].
    destruct (Js.truthy_value _) as [nick|] eqn:T; simpl; [|now left].
    destruct (Js.includes _ _); simpl; [|now left].
    right. exists sid. eexists. split; [reflexivity|]. simpl.
    repeat split; try reflexivity.
    + unfold sender_name. now rewrite T.
    + apply text_or_image.
  - unfold create_group. destruct (negb (Js.truthy g) || _); simpl;
      [now left|].
    destruct (groups_get (groups st) g); simpl; try now left.
    destruct (length _ =? 0)%nat; now left.
  - unfold typing. destruct (ty =? "public"); simpl; [now left|].
    destruct (if ty =? "private" then _ else _).
    + destruct (nicknameToSocketId _ _); now left.
    + destruct (if ty =? "group" then _ else _); [|now left].
      destruct (groups_get _ _); now left.
  - now left.
  - contradiction.
  - now left.
Qed.

(** X12: the history is append-only.  Whatever the input, the reset apart,
    the history after it is the history before it followed by at most one
    record, and only the three chat handlers add one. *)
Theorem history_append_only (st : State) (i : Input) :
  i <> Reset ->
  exists suffix,
    chatHistory (state_of (handle st i)) = chatHistory st ++ suffix /\
    (length suffix <= 1)%nat /\
    match i with
    | ChatPublic _ _ _ | ChatPrivate _ _ _ _ | ChatGroup _ _ _ _ => True
    | _ => suffix = []
    end.
Proof.
  intros Hi.
  destruct (handle_appends st Hi)
    as [E | (sid & message & E & _ & _ & _ & _ & Hkind)].
  - exists []. rewrite E, app_nil_r. split; [reflexivity|].
    split; [simpl; lia|]. now destruct i.
  - exists [message]. split; [exact E|]. split; [simpl; lia|].
    destruct i; try contradiction; exact I.
Qed.

(** X12 at work: a private message that is accepted adds one record. *)
Lemma history_append_only_witness :
  let st := mkState [("s1", "ana"); ("s2", "bob")] []
                    [mkMessage "s1" "ana" "hola" ImageNull 1 "public" None] in
  let i := ChatPrivate "s1" "bob" (Payload.mk None (Some "pst") None) 2 in
  exists suffix,
    chatHistory (state_of (handle st i)) = chatHistory st ++ suffix /\
    (length suffix <= 1)%nat /\ True.
Proof.
  apply (@history_append_only
           (mkState [("s1", "ana"); ("s2", "bob")] []
                    [mkMessage "s1" "ana" "hola" ImageNull 1 "public" None])
           (ChatPrivate "s1" "bob" (Payload.mk None (Some "pst") None) 2)).
  discriminate.
Defined.

(** X13: a record is stored with the identity the server resolves, never
    one the client sends: its [id] is the socket the input came from, its
    [name] the truthy nickname recorded for that socket, or "Desconocido"
    when there is none, its [time] the time of handling; and a record
    never has both a text and an image. *)
Theorem stored_record_provenance (st : State) (i : Input)
  (message : Message) :
  chatHistory (state_of (handle st i)) = chatHistory st ++ [message] ->
  exists sid,
    sender_of i = Some sid /\
    id message = sid /\
    name message = sender_name st sid /\
    (image message = ImageNull \/ text message = "") /\
    match i with
    | ChatPublic _ _ now | ChatPrivate _ _ _ now | ChatGroup _ _ _ now =>
        time message = now
    | _ => False
    end.
Proof.
  intros E.
  assert (Hi : i <> Reset).
  { intros ->. simpl in E. rewrite reset_eq in E. simpl in E.
    now apply app_cons_not_nil in E. }
  destruct (handle_appends st Hi) as [E' | (sid & m & E' & H)].
  - rewrite E' in E. now apply app_one_not_self in E.
  - rewrite E' in E. apply app_inv_head in E. injection E as ->.
    now exists sid.
Qed.

(** X13 at work: a connection without nickname sends an image with a text
    beside it; the record has no text and the name "Desconocido". *)
Lemma stored_record_provenance_witness :
  let st := mkState [("s1", "ana")] [] [] in
  let i := ChatPublic "s9" (PubObject (Payload.mk (Some "image")
                                                 (Some "mira") (Some "png")))
                      7 in
  let message :=
    mkMessage "s9" "Desconocido" "" (ImageData (Some "png")) 7 "public"
              None in
  exists sid,
    sender_of i = Some sid /\
    id message = sid /\
    name message = sender_name st sid /\
    (image message = ImageNull \/ text message = "") /\
    time message = 7%Z.
Proof.
  apply (@stored_record_provenance
           (mkState [("s1", "ana")] [] [])
           (ChatPublic "s9" (PubObject (Payload.mk (Some "image")
                                                   (Some "mira") (Some "png")))
                       7)
           (mkMessage "s9" "Desconocido" "" (ImageData (Some "png")) 7
                      "public" None)).
  reflexivity.
Defined.

Lemma filter_throwing_filter (A : Type) (f : A -> option bool)
  (l l' : list A) :
  filter_throwing f l = Some l' ->
  l' = filter (fun a => match f a with Some b => b | None => false end) l.
Proof.
  revert l'. induction l as [|x r IH]; simpl; intros l'.
  - now intros [= <-].
  - destruct (f x) as [b|]; [|discriminate].
    destruct (filter_throwing f r) as [r'|]; [|discriminate].
    intros [= <-]. rewrite <- (IH r' eq_refl). reflexivity.
Qed.

(** The viewers a record is shown to. *)
Lemma visible_true (gs : Js.Obj (list string)) (V : string)
  (msg : Message) :
  visible gs V msg = Some true <->
  type msg = "public" \/
  (type msg = "private" /\ (name msg = V \/ target msg = Some V)) \/
  (type msg = "group" /\
   exists members,
     Js.own (property_key (target msg)) gs = Some members /\ In V members).
Proof.
  unfold visible.
  destruct (String.eqb_spec (type msg) "public") as [E|Npub].
  - split; [now left | reflexivity].
  - destruct (String.eqb_spec (type msg) "private") as [E|Npriv].
    + split.
      * intros [= H]. right. left. split; [exact E|].
        apply orb_true_iff in H. destruct H as [H|H].
        -- left. now apply String.eqb_eq.
        -- right. destruct (target msg) as [t|]; [|discriminate].
           apply String.eqb_eq in H. now subst.
      * intros [H | [[_ H] | [H _]]]; [contradiction | | congruence].
        f_equal. apply orb_true_iff. destruct H as [H|H].
        -- left. now apply String.eqb_eq.
        -- right. rewrite H. apply String.eqb_refl.
    + destruct (String.eqb_spec (type msg) "group") as [E|Ngrp].
      * unfold groups_get.
        destruct (Js.own (property_key (target msg)) gs) as [members|].
        -- split.
           ++ intros [= H]. right. right. split; [exact E|].
              exists members. split; [reflexivity | now apply includes_In].
           ++ intros [H | [[H _] | [_ (ms & [= <-] & H)]]];
                [contradiction | contradiction |].
              f_equal. now apply includes_In.
        -- split.
           ++ destruct (Js.inherited _); discriminate.
           ++ intros [H | [[H _] | [_ (ms & H & _)]]];
                [contradiction | contradiction | discriminate].
      * split; [discriminate|].
        intros [H | [[H _] | [H _]]]; contradiction.
Qed.

(** X14: in a state whose history can be filtered, the history filtered
    for a viewer is the history, in its order, restricted to the public
    records, the private records whose sender name or target is the viewer,
    and the group records whose target is a group that now has the viewer
    in its member array (membership is read when the history is filtered,
    not when the record was stored). *)
Theorem filtered_history_visibility (st : State) (V : string) :
  filterable st = true ->
  exists shown,
    filterHistoryForNickname st V = Some shown /\
    shown = filter (fun msg => match visible (groups st) V msg with
                               | Some b => b
                               | None => false
                               end) (chatHistory st) /\
    forall msg,
      In msg shown <->
      In msg (chatHistory st) /\
      (type msg = "public" \/
       (type msg = "private" /\ (name msg = V \/ target msg = Some V)) \/
       (type msg = "group" /\
        exists members,
          Js.own (property_key (target msg)) (groups st) = Some members /\
          In V members)).
Proof.
  intros Hf. destruct (filterable_total st V Hf) as (shown & Hs).
  exists shown. split; [exact Hs|].
  pose proof (filter_throwing_filter _ _ Hs) as E.
  split; [exact E|]. intros msg. rewrite E, filter_In.
  rewrite <- visible_true.
  destruct (visible (groups st) V msg) as [[|]|]; intuition congruence.
Qed.

(** X14 at work: what bob is shown of a history with a public record, a
    private record between ana and caro, and a record of his group. *)
Lemma filtered_history_visibility_witness :
  let pub1 := mkMessage "s1" "ana" "hola" ImageNull 1 "public" None in
  let priv1 :=
    mkMessage "s1" "ana" "pst" ImageNull 2 "private" (Some "caro") in
  let grp1 := mkMessage "s1" "ana" "eh" ImageNull 3 "group" (Some "G") in
  let st := mkState [("s1", "ana"); ("s2", "bob"); ("s3", "caro")]
                    [("G", ["ana"; "bob"])] [pub1; priv1; grp1] in
  filterHistoryForNickname st "bob" = Some [pub1; grp1] /\
  exists shown,
    filterHistoryForNickname st "bob" = Some shown /\
    shown = filter (fun msg => match visible (groups st) "bob" msg with
                               | Some b => b
                               | None => false
                               end) (chatHistory st) /\
    forall msg,
      In msg shown <->
      In msg (chatHistory st) /\
      (type msg = "public" \/
       (type msg = "private" /\
        (name msg = "bob" \/ target msg = Some "bob")) \/
       (type msg = "group" /\
        exists members,
          Js.own (property_key (target msg)) (groups st) = Some members /\
          In "bob" members)).
Proof.
  intros pub1 priv1 grp1 st. split; [reflexivity|].
  apply (@filtered_history_visibility st "bob"). reflexivity.
Defined.

(** X15: a public message is always accepted: it is stored, sent once to
    every connection by [io.emit], the sender included, and, in a state
    whose history can be filtered, shown to every viewer. *)
Theorem public_message_broadcast (st : State) (sid : SocketId)
  (msg : PublicPayload) (now : Z) :
  filterable st = true ->
  exists message,
    chat_public st sid msg now
    = Done (push st message) [IoEmit (ChatMessage message)] /\
    type message = "public" /\
    (forall conn,
        received conn [IoEmit (ChatMessage message)]
        = [ChatMessage message]) /\
    forall V, exists shown,
        filterHistoryForNickname (push st message) V = Some shown /\
        In message shown.
Proof.
  intros Hf. unfold chat_public. eexists. split; [reflexivity|].
  split; [now destruct msg|]. split; [reflexivity|].
  intros V. destruct (filterable_total st V Hf) as (h0 & Hh0).
  unfold filterHistoryForNickname in *. simpl.
  rewrite filter_throwing_app, Hh0.
  assert (Hv : forall m, type m = "public" ->
                         visible (groups st) V m = Some true).
  { intros m Hm. unfold visible. now rewrite Hm. }
  rewrite Hv by now destruct msg.
  eexists. split; [reflexivity|]. apply in_or_app. right. now left.
Qed.

(** X15 at work: a connection without nickname sends a public text. *)
Lemma public_message_broadcast_witness :
  let st := mkState [("s1", "ana")] [] [] in
  exists message,
    chat_public st "s9" (PubString "hola") 4
    = Done (push st message) [IoEmit (ChatMessage message)] /\
    type message = "public" /\
    (forall conn,
        received conn [IoEmit (ChatMessage message)]
        = [ChatMessage message]) /\
    forall V, exists shown,
        filterHistoryForNickname (push st message) V = Some shown /\
        In message shown.
Proof.
  apply (@public_message_broadcast
           (mkState [("s1", "ana")] [] []) "s9" (PubString "hola") 4).
  reflexivity.
Defined.

(** What a viewer is shown, record by record. *)
Lemma filtered_In (st : State) (V : string) :
  filterable st = true ->
  exists shown,
    filterHistoryForNickname st V = Some shown /\
    forall msg,
      In msg shown <->
      In msg (chatHistory st) /\ visible (groups st) V msg = Some true.
Proof.
  intros Hf. destruct (filterable_total st V Hf) as (shown & Hs).
  exists shown. split; [exact Hs|]. intros msg.
  rewrite (filter_throwing_filter _ _ Hs), filter_In.
  destruct (visible (groups st) V msg) as [[|]|]; intuition congruence.
Qed.

(** A new group, under a name that was undefined, makes no record throw. *)
Lemma filterable_new_group (st : State) (G : string) (v : list string) :
  groups_get (groups st) G = Undefined ->
  filterable st = true ->
  filterable (mkState (users st) (Js.set G v (groups st)) (chatHistory st))
  = true.
Proof.
  intros Hfresh. unfold filterable. rewrite !forallb_forall.
  intros H msg Hin. specialize (H msg Hin). simpl.
  apply negb_true_iff. apply negb_true_iff in H.
  unfold throws in *. destruct (type msg =? "group"); [|reflexivity].
  simpl in *.
  destruct (groups_get (Js.set G v (groups st)) (property_key (target msg)))
    eqn:E; try reflexivity.
  apply groups_get_Inherited in E. destruct E as [Hown Hinh].
  assert (Hne : property_key (target msg) <> G).
  { intros Heq. rewrite Heq, own_set_same in Hown. discriminate. }
  rewrite (own_set_other _ _ Hne) in Hown.
  assert (E : groups_get (groups st) (property_key (target msg)) = Inherited)
    by now apply groups_get_Inherited.
  rewrite E in H. discriminate.
Qed.

(** X16: group records follow the name of the group, not the group that
    existed when they were stored.  When the history holds a record of a
    group name under which no group exists (the groups are not saved with
    the history, so this is the state after a restart), nobody is shown
    the record; once a connection with a truthy nickname creates a group of
    that name, the record is shown to it. *)
Theorem group_history_follows_the_name (st : State) (sid : SocketId)
  (G : string) (members : list string) (c : string) (m : Message) :
  filterable st = true ->
  In m (chatHistory st) -> type m = "group" -> target m = Some G ->
  G <> "" -> groups_get (groups st) G = Undefined -> members <> [] ->
  Js.own sid (users st) = Some c -> c <> "" ->
  let st' := state_of (create_group st sid G members) in
  (forall V, exists shown,
      filterHistoryForNickname st V = Some shown /\ ~ In m shown) /\
  exists shown,
    filterHistoryForNickname st' c = Some shown /\ In m shown.
Proof.
  intros Hf Hin Hty Htg HG Hfresh Hm Hc Hcne st'.
  assert (Hvalid : In c (validMembers st sid members)).
  { unfold validMembers. rewrite Hc, (truthy_value_Some Hcne).
    destruct (Js.includes c _) eqn:I; simpl.
    - now apply includes_In.
    - apply in_or_app. right. now left. }
  split.
  - intros V. destruct (filtered_In st V Hf) as (shown & Hs & Hshown).
    exists shown. split; [exact Hs|]. intros H. apply Hshown in H.
    destruct H as [_ H]. apply visible_true in H.
    apply groups_get_Undefined in Hfresh. destruct Hfresh as [Hown _].
    destruct H as [H | [[H _] | [_ (ms & H & _)]]]; try congruence.
    rewrite Htg in H. simpl in H. congruence.
  - assert (E : st' = mkState (users st)
                        (Js.set G (validMembers st sid members) (groups st))
                        (chatHistory st)).
    { unfold st'. rewrite (create_group_fresh _ _ HG Hm Hfresh). cbv zeta.
      destruct (length (validMembers st sid members) =? 0)%nat eqn:L;
        [|reflexivity].
      apply Nat.eqb_eq, length_zero_iff_nil in L. rewrite L in Hvalid.
      contradiction. }
    rewrite E.
    destruct (filtered_In _ c
                (@filterable_new_group st G (validMembers st sid members)
                   Hfresh Hf))
      as (shown & Hs & Hshown).
    exists shown. split; [exact Hs|]. apply Hshown. split; [exact Hin|].
    apply visible_true. right. right. split; [exact Hty|].
    exists (validMembers st sid members). rewrite Htg. simpl.
    split; [apply own_set_same | exact Hvalid].
Qed.

(** X16 at work: ana and bob wrote in their group "G"; the server was
    started again, and caro, connected alone, creates a group "G" with a
    member who is not connected: she is shown the record of ana. *)
Lemma group_history_follows_the_name_witness :
  let grp1 := mkMessage "s1" "ana" "eh" ImageNull 3 "group" (Some "G") in
  let st := mkState [("s3", "caro")] [] [grp1] in
  let st' := state_of (create_group st "s3" "G" ["dan"]) in
  (forall V, exists shown,
      filterHistoryForNickname st V = Some shown /\ ~ In grp1 shown) /\
  exists shown,
    filterHistoryForNickname st' "caro" = Some shown /\ In grp1 shown.
Proof.
  apply (@group_history_follows_the_name
           (mkState [("s3", "caro")] []
                    [mkMessage "s1" "ana" "eh" ImageNull 3 "group" (Some "G")])
           "s3" "G" ["dan"] "caro"
           (mkMessage "s1" "ana" "eh" ImageNull 3 "group" (Some "G"))).
  - reflexivity.
  - now left.
  - reflexivity.
  - reflexivity.
  - discriminate.
  - reflexivity.
  - discriminate.
  - reflexivity.
  - discriminate.
Defined.

(** The state of that example is one the server reaches: a group message,
    a restart, and the connection of caro. *)
Example restart_keeps_group_records :
  reachable
    (mkState [("s3", "caro")] []
             [mkMessage "s1" "ana" "eh" ImageNull 3 "group" (Some "G")]).
Proof.
  apply (@run_reachable [SetNickname "s3" "caro"]
           (mkState [] []
              [mkMessage "s1" "ana" "eh" ImageNull 3 "group" (Some "G")])).
  - apply (reachable_restart
             (st := mkState [("s1", "ana")] [("G", ["ana"])]
                      [mkMessage "s1" "ana" "eh" ImageNull 3 "group"
                                 (Some "G")])).
    apply (@run_reachable
             [SetNickname "s1" "ana"; CreateGroup "s1" "G" ["ana"];
              ChatGroup "s1" "G" (Payload.mk None (Some "eh") None) 3]
             initial _ reachable_initial).
    reflexivity.
  - reflexivity.
Qed.

(** X17: after the reset, whatever the state before it, every viewer's
    filtered history is empty, no nickname belongs to any group, a group
    message to any name that is not inherited is answered by the notice
    that the group does not exist, and a connection that sets a nickname is
    sent an empty history and an empty group list. *)
Theorem after_reset (st : State) :
  let st' := state_of (reset st) in
  users st' = users st /\
  (forall V, filterHistoryForNickname st' V = Some []) /\
  (forall nick, myGroups (groups st') nick = []) /\
  (forall sid g msg now,
      Js.inherited g = false ->
      chat_group st' sid g msg now
      = Done st' [SocketEmit sid (SystemMessage (GroupNotFound g))]) /\
  forall sid nickname,
    set_nickname st' sid nickname
    = Done (mkState (Js.set sid nickname (users st)) [] [])
           [IoEmit (UserList (Js.values (Js.set sid nickname (users st))));
            SocketEmit sid (ChatHistory []);
            SocketEmit sid (GroupList [])].
Proof.
  intros st'. unfold st'. rewrite reset_eq. simpl.
  split; [reflexivity|]. split; [reflexivity|]. split; [reflexivity|].
  split; [|reflexivity].
  intros sid g msg now Hi. unfold chat_group, groups_get. simpl.
  rewrite Hi. now destruct (Js.truthy g).
Qed.

(** ** Typing indicators and notices *)

(** X18: typing events are never stored and change nothing.  A public one
    goes to every connection but the sender's; one whose type is none of
    public, private and group, or one of type private or group without a
    truthy target, is dropped without any emission. *)
Theorem typing_never_stored (st : State) (sid : SocketId) (ty : string)
  (tgt : option string) :
  state_of (typing st sid ty tgt) = st /\
  (ty = "public" ->
   let out := [BroadcastEmit sid (Typing (Js.own sid (users st))
                                         "public" None)] in
   typing st sid ty tgt = Done st out /\
   received sid out = [] /\
   forall conn, conn <> sid ->
                received conn out
                = [Typing (Js.own sid (users st)) "public" None]) /\
  (ty <> "public" ->
   Js.truthy_value tgt = None \/ (ty <> "private" /\ ty <> "group") ->
   typing st sid ty tgt = Done st []).
Proof.
  split; [|split].
  - unfold typing.
    destruct (ty =? "public"); simpl; [reflexivity|].
    destruct (if ty =? "private" then _ else _).
    + destruct (nicknameToSocketId _ _); reflexivity.
    + destruct (if ty =? "group" then _ else _); [|reflexivity].
      destruct (groups_get _ _); reflexivity.
  - intros -> out. split; [reflexivity|]. unfold out, received. simpl.
    rewrite String.eqb_refl. split; [reflexivity|].
    intros conn Hne. apply String.eqb_neq in Hne. now rewrite Hne.
  - intros Hpub H. unfold typing. apply String.eqb_neq in Hpub.
    rewrite Hpub. destruct H as [-> | [Hpriv Hgrp]].
    + now destruct (ty =? "private"), (ty =? "group").
    + apply String.eqb_neq in Hpriv, Hgrp. now rewrite Hpriv, Hgrp.
Qed.

(** X19: a typing event of type private whose target is not empty and
    resolves to a connection is sent to that connection alone, the
    sender's own when the target is the sender's nickname: unlike the group
    case, the sender is not left out. *)
Theorem typing_private_resolved (st : State) (sid : SocketId) (t : string)
  (targetId : SocketId) :
  t <> "" ->
  nicknameToSocketId (users st) t = Some targetId ->
  let e := Typing (Js.own sid (users st)) "private" (Some t) in
  typing st sid "private" (Some t) = Done st [IoTo targetId e] /\
  received targetId [IoTo targetId e] = [e] /\
  forall conn, conn <> targetId -> received conn [IoTo targetId e] = [].
Proof.
  intros Ht R e. apply truthy_true in Ht. split; [|split].
  - unfold typing. simpl. now rewrite Ht, R.
  - unfold received. simpl. now rewrite String.eqb_refl.
  - intros conn Hne. unfold received. simpl.
    apply String.eqb_neq in Hne. now rewrite Hne.
Qed.

(** X19 at work: ana types to herself. *)
Lemma typing_private_resolved_witness :
  let st := mkState [("s1", "ana"); ("s2", "bob")] [] [] in
  let e := Typing (Some "ana") "private" (Some "ana") in
  typing st "s1" "private" (Some "ana") = Done st [IoTo "s1" e] /\
  received "s1" [IoTo "s1" e] = [e] /\
  forall conn, conn <> "s1" -> received conn [IoTo "s1" e] = [].
Proof.
  apply (@typing_private_resolved
           (mkState [("s1", "ana"); ("s2", "bob")] [] []) "s1" "ana" "s1").
  - discriminate.
  - reflexivity.
Defined.

Lemma to_members_event (us : Js.Obj string) (skip : option SocketId)
  (e : Event) (members : list string) (em : Emission) :
  In em (to_members us skip e members) -> event_of em = e.
Proof.
  unfold to_members. rewrite in_flat_map. intros (nick & _ & H).
  destruct (nicknameToSocketId us nick) as [s|]; [|contradiction].
  destruct skip as [k|].
  - destruct (s =? k); [contradiction|]. now destruct H as [<- | []].
  - now destruct H as [<- | []].
Qed.

(** The case of a handler that emits one notice to the sender. *)
Ltac single_notice :=
  let H := fresh "H" in
  let E := fresh "E" in
  intros H E; simpl in H; destruct H as [<- | []]; simpl in E;
  injection E as ->; reflexivity.

(** X20: a [system message] is only ever sent to the connection whose
    input is being handled, by [socket.emit]: no handler sends a notice to
    another connection or to all, and the reset sends none. *)
Theorem system_messages_go_to_sender (st : State) (i : Input)
  (em : Emission) (n : Notice) :
  In em (emissions (handle st i)) ->
  event_of em = SystemMessage n ->
  exists sid, sender_of i = Some sid /\ em = SocketEmit sid (SystemMessage n).
Proof.
  destruct i as [sid nickname | sid msg now | sid tgt msg now
                | sid g msg now | sid g members | sid ty tgt | sid | | sid ev ]; simpl.
  - unfold set_nickname.
    destruct (filterHistoryForNickname _ _); simpl;
      intros H E; repeat (destruct H as [<- | H]; [discriminate|]);
      contradiction.
  - intros [<- | []]. discriminate.
  - intros H E. exists sid. split; [reflexivity|]. revert H E.
    unfold chat_private. destruct (nicknameToSocketId _ _); simpl.
    + intros [<- | [<- | []]]; discriminate.
    + single_notice.
  - intros H E. exists sid. split; [reflexivity|]. revert H E.
    unfold chat_group. destruct (Js.truthy g); simpl; [|single_notice].
    destruct (groups_get (groups st) g);
      [| destruct (Js.truthy_value _); simpl;
         [contradiction | single_notice]
       | single_notice].
    destruct (Js.truthy_value _); simpl; [|single_notice].
    destruct (Js.includes _ _); simpl; [|single_notice].
    intros H E. apply to_members_event in H. congruence.
  - intros H E. exists sid. split; [reflexivity|]. revert H E.
    unfold create_group. destruct (negb (Js.truthy g) || _); simpl;
      [single_notice|].
    destruct (groups_get (groups st) g); simpl;
      [single_notice | single_notice |].
    destruct (length _ =? 0)%nat; simpl; [single_notice|].
    intros H E. apply in_app_or in H. destruct H as [H | H].
    + apply in_flat_map in H. destruct H as (nick & _ & H).
      destruct (nicknameToSocketId _ _); [|contradiction].
      destruct H as [<- | []]. discriminate.
    + revert H E. single_notice.
  - unfold typing. destruct (ty =? "public"); simpl.
    + intros [<- | []]. discriminate.
    + destruct (if ty =? "private" then _ else _).
      * destruct (nicknameToSocketId _ _); simpl; [|contradiction].
        intros [<- | []]. discriminate.
      * destruct (if ty =? "group" then _ else _); [|contradiction].
        destruct (groups_get _ _); simpl; try contradiction.
        intros H E. apply to_members_event in H. simpl in H. congruence.
  - intros [<- | H]; [discriminate|]. apply in_map_iff in H.
    destruct H as ((s & nick) & <- & _). discriminate.
  - rewrite reset_eq. simpl. intros [<- | H]; [discriminate|].
    apply in_flat_map in H. destruct H as ((s & nick) & _ & H).
    destruct H as [<- | [<- | []]]; discriminate.
  - intros [].
Qed.

(** X20 at work: the notice for a private message to an absent nickname. *)
Lemma system_messages_go_to_sender_witness :
  let st := mkState [("s1", "ana"); ("s2", "bob")] [] [] in
  let i := ChatPrivate "s1" "zoe" (Payload.mk None (Some "hola") None) 3 in
  let em := SocketEmit "s1" (SystemMessage (TargetNotConnected "zoe")) in
  exists sid,
    sender_of i = Some sid /\
    em = SocketEmit sid (SystemMessage (TargetNotConnected "zoe")).
Proof.
  apply (@system_messages_go_to_sender
           (mkState [("s1", "ana"); ("s2", "bob")] [] [])
           (ChatPrivate "s1" "zoe" (Payload.mk None (Some "hola") None) 3)
           (SocketEmit "s1" (SystemMessage (TargetNotConnected "zoe")))
           (TargetNotConnected "zoe")).
  - now left.
  - reflexivity.
Defined.

(** X21: when no socket id is empty, a nickname resolves to a connection
    exactly when it is in the user list, and the connection it resolves to
    holds it: the nicknames [create group] keeps are the ones that
    resolve. *)
Theorem nickname_resolves_iff_connected (us : Js.Obj string)
  (nickname : string) :
  (forall sid, Js.own sid us <> None -> sid <> "") ->
  ((exists sid, nicknameToSocketId us nickname = Some sid /\
                Js.own sid us = Some nickname) <->
   In nickname (Js.values us)).
Proof.
  intros Hids. split.
  - intros (sid & _ & H). apply values_In. now exists sid.
  - intros H. apply values_In in H. destruct H as (k & Hk).
    apply entries_In in Hk.
    destruct (nicknameToSocketId us nickname) as [sid|] eqn:R.
    + exists sid. split; [reflexivity|]. now apply nicknameToSocketId_own.
    + exfalso. unfold nicknameToSocketId in R.
      destruct (find _ _) as [[s n']|] eqn:F.
      * apply find_some in F. destruct F as [Hin _].
        apply entries_In in Hin.
        assert (Hs : s <> "") by (apply Hids; congruence).
        apply truthy_true in Hs. rewrite Hs in R. discriminate.
      * apply (find_none _ _ F) in Hk. simpl in Hk.
        rewrite String.eqb_refl in Hk. discriminate.
Qed.

(** X21 at work: with ana and bob connected, bob resolves and zoe does
    not. *)
Lemma nickname_resolves_iff_connected_witness :
  let us := [("s1", "ana"); ("s2", "bob")] in
  ((exists sid, nicknameToSocketId us "bob" = Some sid /\
                Js.own sid us = Some "bob") <->
   In "bob" (Js.values us)) /\
  ((exists sid, nicknameToSocketId us "zoe" = Some sid /\
                Js.own sid us = Some "zoe") <->
   In "zoe" (Js.values us)).
Proof.
  assert (Hids : forall sid,
             Js.own sid [("s1", "ana"); ("s2", "bob")] <> None -> sid <> "").
  { intros sid H ->. now apply H. }
  split.
  - exact (@nickname_resolves_iff_connected
             [("s1", "ana"); ("s2", "bob")] "bob" Hids).
  - exact (@nickname_resolves_iff_connected
             [("s1", "ana"); ("s2", "bob")] "zoe" Hids).
Defined.

(** ** Delivery by nickname *)

Lemma to_members_count (us : Js.Obj string) (e : Event)
  (members : list string) (conn : SocketId) :
  received conn (to_members us None e members)
  = repeat e (length (filter (resolves_to us conn) members)).
Proof.
  unfold to_members, resolves_to.
  induction members as [|nick r IH]; simpl; [reflexivity|].
  rewrite received_app, IH.
  destruct (nicknameToSocketId us nick) as [s|]; [|reflexivity].
  unfold received. simpl. destruct (conn =? s); reflexivity.
Qed.

(** X22: a group message is delivered once per entry of the member array:
    a connection is sent the message as many times as the array has
    nicknames that resolve to it.  [create group] keeps the repetitions of
    the proposed members, so a nickname proposed twice is stored twice and
    its connection is sent every group message twice. *)
Theorem group_message_once_per_entry (st : State) (G : string)
  (members : list string) (sid : SocketId) (nick : string)
  (msg : Payload.t) (now : Z) (conn : SocketId) :
  Js.own G (groups st) = Some members -> G <> "" ->
  Js.own sid (users st) = Some nick -> nick <> "" -> In nick members ->
  let message :=
    mkMessage sid nick (message_text msg) (message_image msg) now "group"
              (Some G) in
  received conn (emissions (chat_group st sid G msg now))
  = repeat (ChatMessage message)
           (length (filter (resolves_to (users st) conn) members)).
Proof.
  intros HG Hne Hnick Hnick_ne Hin message.
  apply truthy_true in Hne. apply groups_get_Members in HG.
  apply includes_In in Hin. unfold chat_group.
  rewrite Hne, HG, Hnick, (truthy_value_Some Hnick_ne). simpl.
  rewrite Hin. simpl. apply to_members_count.
Qed.

(** X22 at work: ana creates a group proposing bob twice; bob's socket is
    sent her group message twice, her own once. *)
Lemma group_message_once_per_entry_witness :
  let st0 := mkState [("s1", "ana"); ("s2", "bob")] [] [] in
  let st := state_of (create_group st0 "s1" "G" ["bob"; "bob"]) in
  let message := mkMessage "s1" "ana" "hola" ImageNull 6 "group" (Some "G") in
  let out :=
    emissions (chat_group st "s1" "G" (Payload.mk None (Some "hola") None) 6)
  in
  Js.own "G" (groups st) = Some ["bob"; "bob"; "ana"] /\
  received "s2" out = [ChatMessage message; ChatMessage message] /\
  received "s1" out = [ChatMessage message].
Proof.
  intros st0 st message out. split; [reflexivity|]. split.
  - apply (@group_message_once_per_entry st "G" ["bob"; "bob"; "ana"]
             "s1" "ana" (Payload.mk None (Some "hola") None) 6 "s2");
      try reflexivity; try discriminate.
    right. right. now left.
  - reflexivity.
Defined.

(** X23: a nickname that no connection holds, once set by a connection
    whose id is not empty, resolves to that connection: a private message
    to it, from any sender, is stored and sent to the sender and to that
    connection. *)
Theorem set_nickname_then_resolve (st : State) (sid : SocketId)
  (nickname : string) :
  sid <> "" ->
  (forall s, Js.own s (users st) <> Some nickname) ->
  let st' := state_of (set_nickname st sid nickname) in
  nicknameToSocketId (users st') nickname = Some sid /\
  forall sender msg now,
    let message :=
      mkMessage sender (sender_name st' sender) (message_text msg)
                (message_image msg) now "private" (Some nickname) in
    chat_private st' sender nickname msg now
    = Done (push st' message)
           [SocketEmit sender (ChatMessage message);
            IoTo sid (ChatMessage message)].
Proof.
  intros Hsid Hnone st'.
  assert (Hu : users st' = Js.set sid nickname (users st)).
  { unfold st'. apply (handle_users st (SetNickname sid nickname)). }
  assert (R : nicknameToSocketId (users st') nickname = Some sid).
  { rewrite Hu.
    assert (Hholder : forall s,
               Js.own s (Js.set sid nickname (users st)) = Some nickname ->
               s = sid).
    { intros s Hs. destruct (String.eqb_spec s sid) as [E|Hne];
        [exact E|].
      rewrite (own_set_other _ _ Hne) in Hs. now apply Hnone in Hs. }
    unfold nicknameToSocketId.
    destruct (find _ _) as [[s n']|] eqn:F.
    - apply find_some in F. destruct F as [Hentry Hn].
      simpl in Hn. apply String.eqb_eq in Hn. subst n'.
      apply entries_In, Hholder in Hentry. subst s.
      apply truthy_true in Hsid. now rewrite Hsid.
    - assert (Hentry : In (sid, nickname)
                          (Js.entries (Js.set sid nickname (users st))))
        by (apply entries_In, own_set_same).
      apply (find_none _ _ F) in Hentry. simpl in Hentry.
      rewrite String.eqb_refl in Hentry. discriminate. }
  split; [exact R|].
  intros sender msg now message. unfold chat_private. now rewrite R.
Qed.

(** X23 at work: bob connects while ana is connected. *)
Lemma set_nickname_then_resolve_witness :
  let st := mkState [("s1", "ana")] [] [] in
  let st' := state_of (set_nickname st "s2" "bob") in
  nicknameToSocketId (users st') "bob" = Some "s2" /\
  forall sender msg now,
    let message :=
      mkMessage sender (sender_name st' sender) (message_text msg)
                (message_image msg) now "private" (Some "bob") in
    chat_private st' sender "bob" msg now
    = Done (push st' message)
           [SocketEmit sender (ChatMessage message);
            IoTo "s2" (ChatMessage message)].
Proof.
  apply (@set_nickname_then_resolve (mkState [("s1", "ana")] [] [])
           "s2" "bob").
  - discriminate.
  - intros s. simpl. destruct (s =? "s1"); discriminate.
Defined.
